(** * ContentMediaHub: the content-idea analysis pipeline

    A shallow embedding of the two edge functions
    [supabase/functions/analyze-content/index.ts] (the analysis
    orchestrator) and [supabase/functions/submit-idea/index.ts] (the
    submission intake), together with the text helpers the orchestrator
    applies to the completion text.  Further on come the sibling edge
    function [generate-daily-insights] with the card that shows its
    result, the event bus of the dashboard, the substitution of the title
    into the template, and the handler of row changes of the table of
    ideas.

    Conventions of the model.
    - A JavaScript string is a [list ascii]: a string of code units below
      256.  The patterns of the program are ASCII, and of the line
      terminators that the dot of a pattern refuses, line feed and
      carriage return are in this range.
    - A number is an integer [Z]: identifiers, HTTP statuses and scores.
      The result of [parseInt] is a double: it is modelled by the integer
      that the double holds, which is the decimal value of the digits
      below 2^53 and the nearest double above, or by [Infinity].
    - The table [content_ideas] is a finite map from identifier to row.  A
      write addressed to an existing row applies; [.single()] reports an
      error exactly when no row is selected.  The table is the database's:
      the program has no code for it, and assigns no identifier.  The
      model takes the identity column that step 1.1 of [PLAN.md] declares
      for it, [id bigint GENERATED ALWAYS AS IDENTITY]: a sequence that
      starts at 1.  This is an assumption on the database, not a property
      of the program.
    - The web-search provider, the completion provider, the identity
      service and the function dispatcher are outside the program: what
      they answer is an input of a run. *)

From Stdlib Require Import ZArith List Ascii String Lia Bool.
From stdpp Require Import base option list gmap strings.
Import ListNotations.

Local Open Scope Z_scope.
#[local] Set Warnings "-register-all".

(** ** JavaScript strings *)

Module Js.

Abbreviation str := (list ascii).

Definition lit (s : string) : str := list_ascii_of_string s.

Definition dquote : ascii := ascii_of_nat 34.
Definition newline : ascii := ascii_of_nat 10.

(** [starts_with p s]: the rest of [s] after the literal [p], when [s]
    begins with [p]. *)
Fixpoint starts_with (p s : str) : option str :=
  match p, s with
  | [], _ => Some s
  | _ :: _, [] => None
  | a :: p', b :: s' => if Ascii.eqb a b then starts_with p' s' else None
  end.

(** [ends_with p s]: what is left of [s] before the literal [p], when [s]
    ends with [p]. *)
Definition ends_with (p s : str) : option str :=
  match starts_with (rev p) (rev s) with
  | Some r => Some (rev r)
  | None => None
  end.

(** The class [\d] of a regular expression without the unicode flag. *)
Definition is_digit (c : ascii) : bool :=
  let n := nat_of_ascii c in (48 <=? n)%nat && (n <=? 57)%nat.

Definition digit_value (c : ascii) : Z := Z.of_nat (nat_of_ascii c) - 48.

(** Greedy [\d*]: the longest run of digits at the head, and the rest. *)
Fixpoint span_digits (s : str) : str * str :=
  match s with
  | c :: s' =>
      if is_digit c then let '(d, r) := span_digits s' in (c :: d, r)
      else ([], s)
  | [] => ([], [])
  end.

(** The integer that a run of decimal digits writes. *)
Definition decimal (d : str) : Z :=
  fold_left (fun acc c => 10 * acc + digit_value c) d 0.

(** A Number that holds an integer, or [Infinity]. *)
Inductive Number :=
| Finite (z : Z)
| Infinity.

(** The double of a non-negative integer [n]: the Number value for [n].
    An integer below 2^53 is a double.  Above, a double has a significand
    [m] of 53 bits and is [m * 2^e]: [n] goes to the nearest of them, to
    the one with the even significand when it is half way between two,
    and to [Infinity] when that is 2^1024, which is past the largest
    double [(2^53 - 1) * 2^971]. *)
Definition to_double (n : Z) : Number :=
  if n <? 2 ^ 53 then Finite n
  else
    let e := Z.log2 n - 52 in
    let m := Z.shiftr n e in
    let rest := n - Z.shiftl m e in
    let half := 2 ^ (e - 1) in
    let m' := if (half <? rest) || ((rest =? half) && Z.odd m)
              then m + 1 else m in
    let v := Z.shiftl m' e in
    if 2 ^ 1024 <=? v then Infinity else Finite v.

(** [parseInt(d, 10)] on a non-empty run of decimal digits. *)
Definition parseInt (d : str) : Number := to_double (decimal d).

(** The class [.] of a regular expression without the [s] flag refuses
    the line terminators. *)
Definition is_line_terminator (c : ascii) : bool :=
  let n := nat_of_ascii c in (n =? 10)%nat || (n =? 13)%nat.

End Js.

Import Js.

(** ** Text helpers of the orchestrator *)

(** The opening fence line [```html\n] and the closing one [\n```]. *)
Definition fence_open : str := lit "```html" ++ [newline].
Definition fence_close : str := newline :: lit "```".

(** [s.replace(/^```html\n/, '')] *)
Definition replace_leading_fence (s : str) : str :=
  match starts_with fence_open s with
  | Some r => r
  | None => s
  end.

(** [s.replace(/\n```$/, '')]: without the multiline flag [$] is the end of
    the input, so the only candidate match is the last four characters. *)
Definition replace_trailing_fence (s : str) : str :=
  match ends_with fence_close s with
  | Some r => r
  | None => s
  end.

(** [analysisHtml.replace(/^```html\n/, '').replace(/\n```$/, '')] *)
Definition clean_fences (s : str) : str :=
  replace_trailing_fence (replace_leading_fence s).

(** The score pattern
    [<strong style="font-size: 1.2em; color: #FF7A59;">(\d+)\/100<\/strong>]
    is made of three literals, with the dot of [1.2em] between the first
    two and the capture group between the last two.  The dot is not
    escaped: it stands for any one character that is not a line
    terminator. *)
Definition pattern_head : str :=
  lit "<strong style=" ++ [dquote] ++ lit "font-size: 1".
Definition pattern_tail : str :=
  lit "2em; color: #FF7A59;" ++ [dquote] ++ lit ">".
Definition marker_close : str := lit "/100</strong>".

(** The pattern anchored at the head of [s]; the result is the capture
    group.  [\d+] is greedy, and giving a digit back can not help: the
    next literal is [/]. *)
Definition match_here (s : str) : option str :=
  match starts_with pattern_head s with
  | Some (c :: r0) =>
      if is_line_terminator c then None
      else
        match starts_with pattern_tail r0 with
        | Some r1 =>
            let '(d, r2) := span_digits r1 in
            match d with
            | [] => None
            | _ :: _ =>
                match starts_with marker_close r2 with
                | Some _ => Some d
                | None => None
                end
            end
        | None => None
        end
  | _ => None
  end.

(** [analysisHtml.match(/.../)] without the global flag: the match of the
    leftmost position where the pattern applies, or null. *)
Fixpoint scoreMatch (s : str) : option str :=
  match match_here s with
  | Some d => Some d
  | None =>
      match s with
      | [] => None
      | _ :: s' => scoreMatch s'
      end
  end.

(** [scoreMatch ? parseInt(scoreMatch[1], 10) : null] *)
Definition extract_score (s : str) : option Number :=
  match scoreMatch s with
  | Some d => Some (parseInt d)
  | None => None
  end.

(** [JSON.stringify] of a score in the body of a request: a finite number
    is written as it is, null and [Infinity] are written null. *)
Definition json_number (score : option Number) : option Z :=
  match score with
  | Some (Finite z) => Some z
  | Some Infinity => None
  | None => None
  end.

(** The opening tag of the marker as the template has it, and the marker
    around a given run of digits. *)
Definition marker_open : str := pattern_head ++ lit "." ++ pattern_tail.
Definition marker (d : str) : str := marker_open ++ d ++ marker_close.

(** What it means for a text to contain the marker pattern, said without
    the matcher: somewhere in [s] stands the opening tag, a non-empty
    run of digits and the closing literal.  [pre] is the text before it. *)
Definition marker_at (s pre d : str) : Prop :=
  ∃ post, s = pre ++ marker d ++ post ∧ d ≠ [] ∧ forallb is_digit d = true.

Definition contains_marker (s : str) : Prop := ∃ pre d, marker_at s pre d.

(** A text of the form of the marker: the marker, with any one character
    that is not a line terminator where the marker has the dot of
    [1.2em]. *)
Definition marker_form (c : ascii) (d : str) : str :=
  pattern_head ++ c :: pattern_tail ++ d ++ marker_close.

Definition form_at (s pre : str) (c : ascii) (d : str) : Prop :=
  ∃ post, s = pre ++ marker_form c d ++ post
          ∧ is_line_terminator c = false
          ∧ d ≠ [] ∧ forallb is_digit d = true.

Definition contains_form (s : str) : Prop := ∃ pre c d, form_at s pre c d.

(** A text that carries the markdown wrapper: an opening fence line, a
    body, and a closing fence line. *)
Definition wrap (b : str) : str := fence_open ++ b ++ fence_close.
Definition wrapped (t : str) : Prop := ∃ b, t = wrap b.

Definition begins_with_fence (t : str) : Prop := ∃ r, t = fence_open ++ r.
Definition ends_with_fence (t : str) : Prop := ∃ r, t = r ++ fence_close.

(** A marker stands after [pre], and no text of the form of the marker
    begins before it: it is the first one of [s]. *)
Definition leftmost_marker (s pre d : str) : Prop :=
  marker_at s pre d ∧
  ∀ pre' c' d', form_at s pre' c' d' → (length pre <= length pre')%nat.

(** ** JSON bodies and the property accesses made on them *)

Inductive Json :=
| JNull
| JBool (b : bool)
| JNum (z : Z)
| JStr (s : str)
| JArr (l : list Json)
| JObj (fields : list (str * Json)).

(** A JavaScript value read out of a parsed body: [None] is [undefined]. *)
Abbreviation jsval := (option Json).

Inductive Exn :=
| MissingField (name : str)      (* new Error('Missing required field: ...') *)
| StoreError                     (* the error object returned by the store *)
| IdeaNotFound (idea_id : Z)     (* new Error(`Idea with ID ... not found`) *)
| FetchFailed                    (* fetch() rejected: the call did not complete *)
| SyntaxError                    (* .json() on a body that is not JSON *)
| TypeError                      (* property of null/undefined, not a function *)
| CompletionStatus (status : Z)  (* OpenAI API request failed with status: ... *)
| AuthError                      (* userError of auth.getUser() *)
| UserNotFound.                  (* new Error('User not found') *)

Fixpoint str_eqb (a b : str) : bool :=
  match a, b with
  | [], [] => true
  | x :: a', y :: b' => Ascii.eqb x y && str_eqb a' b'
  | _, _ => false
  end.

(** The value of a key in a parsed object: JSON.parse keeps the last
    occurrence of a repeated key. *)
Fixpoint own_property (name : str) (fields : list (str * Json)) : jsval :=
  match fields with
  | [] => None
  | (k, v) :: fields' =>
      match own_property name fields' with
      | Some v' => Some v'
      | None => if str_eqb name k then Some v else None
      end
  end.

(** [v.name] for the data properties this program reads (web, results,
    title, url, description, choices, message, content): a TypeError on null
    and undefined, undefined on primitives and arrays. *)
Definition prop (name : string) (v : jsval) : Exn + jsval :=
  match v with
  | None | Some JNull => inl TypeError
  | Some (JObj fields) => inr (own_property (lit name) fields)
  | Some _ => inr None
  end.

(** [v[0]] *)
Definition index0 (v : jsval) : Exn + jsval :=
  match v with
  | None | Some JNull => inl TypeError
  | Some (JArr l) => inr (head l)
  | Some (JStr s) => inr (match s with [] => None | c :: _ => Some (JStr [c]) end)
  | Some (JObj fields) => inr (own_property (lit "0") fields)
  | Some _ => inr None
  end.

(** The values for which [!v] holds, among those a parsed body can give. *)
Definition falsy (v : jsval) : bool :=
  match v with
  | None | Some JNull | Some (JBool false) | Some (JNum 0) | Some (JStr []) => true
  | Some _ => false
  end.

(** ** Pure steps that may throw *)

Definition bind_exn {A B} (m : Exn + A) (f : A -> Exn + B) : Exn + B :=
  match m with
  | inl e => inl e
  | inr a => f a
  end.

Declare Scope exn_scope.
Delimit Scope exn_scope with exn.
Notation "x <- m ;; k" := (bind_exn m (fun x => k))
  (at level 100, m at next level, right associativity) : exn_scope.

Fixpoint map_exn {A B} (f : A -> Exn + B) (l : list A) : Exn + list B :=
  match l with
  | [] => inr []
  | a :: l' =>
      bind_exn (f a) (fun b => bind_exn (map_exn f l') (fun bs => inr (b :: bs)))
  end.

Record SearchResult := {
  sr_title : jsval;
  sr_url : jsval;
  sr_snippet : jsval;
}.

(** [(r) => ({ title: r.title, url: r.url, snippet: r.description })] *)
Definition to_search_result (r : Json) : Exn + SearchResult :=
  (t <- prop "title" (Some r);;
   u <- prop "url" (Some r);;
   d <- prop "description" (Some r);;
   inr {| sr_title := t; sr_url := u; sr_snippet := d |})%exn.

(** [braveData.web?.results.slice(0, 5).map(...) || []]: the optional
    chain stops only at a missing [web]; anything but an array under
    [results] has no [slice] followed by [map]. *)
Definition searchContext (braveData : Json) : Exn + list SearchResult :=
  (web <- prop "web" (Some braveData);;
   match web with
   | None | Some JNull => inr []
   | Some _ =>
       results <- prop "results" web;;
       match results with
       | Some (JArr l) => map_exn to_search_result (take 5 l)
       | _ => inl TypeError
       end
   end)%exn.

Definition placeholder_report : str :=
  lit "<html><body>Error generating report.</body></html>".

(** [chatCompletion.choices[0].message.content] *)
Definition choice_content (chatCompletion : Json) : Exn + jsval :=
  (choices <- prop "choices" (Some chatCompletion);;
   first <- index0 choices;;
   message <- prop "message" first;;
   prop "content" message)%exn.

(** [content || '<html>...'] followed by a call of [.replace]: only a
    string has that method. *)
Definition analysis_text (content : jsval) : Exn + str :=
  if falsy content then inr placeholder_report
  else match content with
       | Some (JStr s) => inr s
       | _ => inl TypeError
       end.

(** ** The persisted rows *)

Inductive AnalysisStatus := pending | analyzing | completed | failed.

(** 'New' | 'In Review' | 'In Progress' | 'Complete' | 'On Hold' *)
Inductive ProjectStatus := New | InReview | InProgress | Complete | OnHold.

(** A row of [content_ideas], with the columns the edge functions read or
    write; timestamps and the free-text columns are left to their
    defaults by both of them. *)
Record Idea := {
  id : Z;
  title : str;
  user_id : str;
  analysis_status : AnalysisStatus;
  project_status : ProjectStatus;
  score : option Z;
  analysis : option str;
}.

(** The object given to [.update(...)], as the body of the request
    carries it: [None] is an absent key. *)
Record Patch := {
  set_analysis_status : option AnalysisStatus;
  set_score : option (option Z);
  set_analysis : option str;
  set_project_status : option ProjectStatus;
}.

Definition apply_patch (p : Patch) (r : Idea) : Idea :=
  {| id := id r;
     title := title r;
     user_id := user_id r;
     analysis_status := default (analysis_status r) (set_analysis_status p);
     project_status := default (project_status r) (set_project_status p);
     score := default (score r) (set_score p);
     analysis := match set_analysis p with Some a => Some a | None => analysis r end |}.

Definition patch_status (s : AnalysisStatus) : Patch :=
  {| set_analysis_status := Some s; set_score := None;
     set_analysis := None; set_project_status := None |}.

(** [{ analysis_status: 'completed', score, analysis: analysisHtml }] *)
Definition patch_completed (score : option Number) (html : str) : Patch :=
  {| set_analysis_status := Some completed;
     set_score := Some (json_number score);
     set_analysis := Some html; set_project_status := None |}.

Definition patch_project (s : ProjectStatus) : Patch :=
  {| set_analysis_status := None; set_score := None;
     set_analysis := None; set_project_status := Some s |}.

(** The table, and the identity sequence of the database: the next
    identifier it gives. *)
Record Store := {
  rows : gmap Z Idea;
  next_id : Z;
}.

Definition empty_store : Store := {| rows := ∅; next_id := 1 |}.

(** [.update(p).eq('id', k)] *)
Definition store_update (k : Z) (p : Patch) (s : Store) : Store :=
  {| rows := alter (apply_patch p) k (rows s); next_id := next_id s |}.

(** [.insert(...)]: the columns that the object does not name take their
    defaults, and the identifier is the database's to give. *)
Definition store_insert (t u : str) (a : AnalysisStatus) (p : ProjectStatus)
    (s : Store) : Idea * Store :=
  let r := {| id := next_id s; title := t; user_id := u; analysis_status := a;
              project_status := p; score := None; analysis := None |} in
  (r, {| rows := <[next_id s := r]> (rows s); next_id := next_id s + 1 |}).

(** ** What a run does: store writes and outbound calls, in order *)

(** The variable parts of the prompt: the title and the search context
    put into the fixed instruction text and template. *)
Record Prompt := {
  prompt_title : str;
  prompt_search : list SearchResult;
}.

Inductive Event :=
| EvUpdate (k : Z) (p : Patch)     (* from('content_ideas').update(p).eq('id', k) *)
| EvInsert (r : Idea)              (* from('content_ideas').insert(...) *)
| EvSearch (q : str)               (* GET to the web-search provider *)
| EvCompletion (p : Prompt)        (* POST to the completion provider *)
| EvGetUser                        (* auth.getUser() *)
| EvInvoke (k : Z).                (* functions.invoke('analyze-content', ...) *)

Record World := {
  store : Store;
  log : list Event;
}.

(** Computations of a handler: they read and write the world and may
    throw. *)
Definition M (A : Type) : Type := World -> (Exn + A) * World.

Definition ret {A} (a : A) : M A := fun w => (inr a, w).

Definition throw {A} (e : Exn) : M A := fun w => (inl e, w).

Definition bind {A B} (m : M A) (f : A -> M B) : M B :=
  fun w =>
    match m w with
    | (inl e, w') => (inl e, w')
    | (inr a, w') => f a w'
    end.

Definition lift {A} (r : Exn + A) : M A := fun w => (r, w).

Definition emit (ev : Event) : M unit :=
  fun w => (inr tt, {| store := store w; log := log w ++ [ev] |}).

Declare Scope m_scope.
Delimit Scope m_scope with M.
Notation "x <- m ;; k" := (bind m (fun x => k))
  (at level 100, m at next level, right associativity) : m_scope.
Notation "m ;; k" := (bind m (fun _ => k))
  (at level 100, right associativity) : m_scope.

(** [await from('content_ideas').update(p).eq('id', k)], result unread. *)
Definition update (k : Z) (p : Patch) : M unit :=
  fun w => (inr tt, {| store := store_update k p (store w);
                       log := log w ++ [EvUpdate k p] |}).

(** [await ...update(p).eq('id', k).select().single()]: the pair
    [{ data, error }]; [single] gives an error when no row is selected. *)
Definition update_select_single (k : Z) (p : Patch) : M (option Idea * option Exn) :=
  (update k p;;
   fun w => (inr (match rows (store w) !! k with
                  | Some r => (Some r, None)
                  | None => (None, Some StoreError)
                  end), w))%M.

(** [await ...insert(...).select().single()] *)
Definition insert_select_single (t u : str) (a : AnalysisStatus)
    (p : ProjectStatus) : M (option Idea * option Exn) :=
  fun w =>
    let '(r, s') := store_insert t u a p (store w) in
    (inr (Some r, None), {| store := s'; log := log w ++ [EvInsert r] |}).

(** What an HTTP provider answers to [fetch]: the promise rejects, or
    there is a response with a status and a body ([None]: not JSON). *)
Inductive FetchResult :=
| NetworkFailure
| Responded (status : Z) (body : option Json).

(** [response.ok] *)
Definition ok (status : Z) : bool := (200 <=? status) && (status <=? 299).

(** [await response.json()] *)
Definition json (body : option Json) : M Json :=
  match body with
  | Some j => ret j
  | None => throw SyntaxError
  end.

Definition fetch (ev : Event) (answer : FetchResult) : M (Z * option Json) :=
  (emit ev;;
   match answer with
   | NetworkFailure => throw FetchFailed
   | Responded st b => ret (st, b)
   end)%M.

Inductive Method := OPTIONS | POST | GET.

Inductive ResponseBody :=
| BodyOk                        (* 'ok' *)
| BodySuccess (idea_id : Z)     (* { success: true, idea_id } *)
| BodyError (e : Exn)           (* { error: error.message } *)
| BodyIdea (r : Idea).          (* the created row *)

Record Response := {
  status : Z;
  body : ResponseBody;
}.

(** ** analyze-content *)

(** The inbound trigger [{ idea_id: integer }]; [None] for a request whose
    body is not JSON, and for an object without the key. *)
Record AnalyzeRequest := {
  analyze_method : Method;
  analyze_body : option (option Z);
}.

(** The answers of the two providers during one run. *)
Record AnalyzeEnv := {
  brave : FetchResult;
  openai : FetchResult;
}.

(** The part of the [try] block after [supabaseAdmin] is set: lines 37 to
    135 of the source. *)
Definition run_analysis (env : AnalyzeEnv) (idea_id : Z) : M unit :=
  (res <- update_select_single idea_id (patch_status analyzing);;
   let '(idea, ideaError) := res in
   match ideaError with
   | Some e => throw e
   | None =>
   match idea with
   | None => throw (IdeaNotFound idea_id)
   | Some idea =>
       braveResponse <- fetch (EvSearch (title idea)) (brave env);;
       braveData <- json (snd braveResponse);;
       ctx <- lift (searchContext braveData);;
       let prompt := {| prompt_title := title idea; prompt_search := ctx |} in
       openAIResponse <- fetch (EvCompletion prompt) (openai env);;
       if negb (ok (fst openAIResponse))
       then throw (CompletionStatus (fst openAIResponse))
       else
         chatCompletion <- json (snd openAIResponse);;
         content <- lift (choice_content chatCompletion);;
         text <- lift (analysis_text content);;
         let analysisHtml := clean_fences text in
         let score := extract_score analysisHtml in
         update idea_id (patch_completed score analysisHtml)
   end
   end)%M.

(** The handler given to [serve].  The [catch] block writes [failed] when
    both [idea_id] and [supabaseAdmin] are set, that is when the [try]
    block got past the check of [idea_id]. *)
Definition analyze_content (env : AnalyzeEnv) (req : AnalyzeRequest)
    (w : World) : Response * World :=
  match analyze_method req with
  | OPTIONS => ({| status := 200; body := BodyOk |}, w)
  | _ =>
      match analyze_body req with
      | None => ({| status := 500; body := BodyError SyntaxError |}, w)
      | Some idea_id =>
          if falsy (JNum <$> idea_id)
          then ({| status := 500; body := BodyError (MissingField (lit "idea_id")) |}, w)
          else
            let k := default 0 idea_id in
            match run_analysis env k w with
            | (inr _, w') => ({| status := 200; body := BodySuccess k |}, w')
            | (inl e, w') =>
                let '(_, w'') := update k (patch_status failed) w' in
                ({| status := 500; body := BodyError e |}, w'')
            end
      end
  end.

(** ** submit-idea *)

(** The submission [{ title: string }]; [None] for a request whose body is
    not JSON, and for an object without the key. *)
Record SubmitRequest := {
  submit_method : Method;
  submit_body : option (option str);
}.

(** [auth.getUser()]: an error, no error and no user, or the user. *)
Inductive AuthResult :=
| AuthFails
| NoUser
| User (uid : str).

(** What becomes of the invocation that is not awaited: the platform
    starts the orchestrator, which then runs against its providers, or the
    invocation does not start. *)
Inductive Dispatch :=
| DispatchRuns (env : AnalyzeEnv)
| DispatchFails.

Record SubmitEnv := {
  auth : AuthResult;
  dispatch : Dispatch;
}.

(** Steps 2 to 5 of the [try] block, up to the call of [functions.invoke]. *)
Definition intake (a : AuthResult) (t : str) : M Idea :=
  (emit EvGetUser;;
   match a with
   | AuthFails => throw AuthError
   | NoUser => throw UserNotFound
   | User uid =>
       res <- insert_select_single t uid analyzing New;;
       let '(newIdea, insertError) := res in
       match insertError with
       | Some e => throw e
       | None =>
           match newIdea with
           | None => throw TypeError
           | Some newIdea => emit (EvInvoke (id newIdea));; ret newIdea
           end
       end
   end)%M.

(** The world once the invocation issued by [intake] has settled. *)
Definition settle (d : Dispatch) (k : Z) (w : World) : World :=
  match d with
  | DispatchRuns env =>
      snd (analyze_content env {| analyze_method := POST; analyze_body := Some (Some k) |} w)
  | DispatchFails => w
  end.

(** The handler given to [serve].  The response is built from [newIdea] as
    the insertion returned it; the world of the result is the one after the
    invocation has settled. *)
Definition submit_idea (env : SubmitEnv) (req : SubmitRequest)
    (w : World) : Response * World :=
  match submit_method req with
  | OPTIONS => ({| status := 200; body := BodyOk |}, w)
  | _ =>
      match submit_body req with
      | None => ({| status := 400; body := BodyError SyntaxError |}, w)
      | Some t =>
          if falsy (JStr <$> t)
          then ({| status := 400; body := BodyError (MissingField (lit "title")) |}, w)
          else
            match intake (auth env) (default [] t) w with
            | (inr newIdea, w') =>
                ({| status := 201; body := BodyIdea newIdea |},
                 settle (dispatch env) (id newIdea) w')
            | (inl e, w') => ({| status := 400; body := BodyError e |}, w')
            end
      end
  end.

(** ** The table over time *)

(** [handleStatusChange] of the dashboard:
    [from('content_ideas').update({ project_status }).eq('id', ideaId)]. *)
Definition handleStatusChange (ideaId : Z) (newStatus : ProjectStatus) : M unit :=
  update ideaId (patch_project newStatus).

Inductive Action :=
| Submit (env : SubmitEnv) (req : SubmitRequest)
| Analyze (env : AnalyzeEnv) (req : AnalyzeRequest)
| ChangeProjectStatus (ideaId : Z) (newStatus : ProjectStatus).

Definition start (s : Store) : World := {| store := s; log := [] |}.

(** The events of one action on a table. *)
Definition events (a : Action) (s : Store) : list Event :=
  match a with
  | Submit env req => log (snd (submit_idea env req (start s)))
  | Analyze env req => log (snd (analyze_content env req (start s)))
  | ChangeProjectStatus k p => log (snd (handleStatusChange k p (start s)))
  end.

(** The effect of one event on the table. *)
Definition apply_event (s : Store) (ev : Event) : Store :=
  match ev with
  | EvUpdate k p => store_update k p s
  | EvInsert r => {| rows := <[id r := r]> (rows s); next_id := id r + 1 |}
  | _ => s
  end.

Definition replay (evs : list Event) (s : Store) : Store :=
  fold_left apply_event evs s.

(** The tables seen while the events happen, the first one included. *)
Fixpoint visited (evs : list Event) (s : Store) : list Store :=
  match evs with
  | [] => [s]
  | ev :: evs' => s :: visited evs' (apply_event s ev)
  end.

(** The tables any sequence of actions goes through, from the empty one. *)
Inductive reachable : Store -> Prop :=
| reach_empty : reachable empty_store
| reach_action s a s' :
    reachable s -> In s' (visited (events a s) s) -> reachable s'.

(** The values written to [analysis_status] by a list of events. *)
Definition status_writes (evs : list Event) : list AnalysisStatus :=
  omap (fun ev => match ev with
                  | EvUpdate _ p => set_analysis_status p
                  | EvInsert r => Some (analysis_status r)
                  | _ => None
                  end) evs.

Definition terminal (a : AnalysisStatus) : bool :=
  match a with
  | completed | failed => true
  | _ => false
  end.

Definition status_of (s : Store) (k : Z) : option AnalysisStatus :=
  analysis_status <$> rows s !! k.

(** A sequence of invocations of the orchestrator, one after the other. *)
Definition analyze_all (runs : list (AnalyzeEnv * AnalyzeRequest)) (s : Store) : Store :=
  fold_left (fun s run => store (snd (analyze_content run.1 run.2 (start s)))) runs s.

(** ** The shape of a run of the orchestrator *)

(** The events that are calls to a provider. *)
Definition is_call (ev : Event) : Prop :=
  match ev with
  | EvSearch _ | EvCompletion _ => True
  | _ => False
  end.

(** What a run of [analyze_content] in the world [w] can be: the answer
    to a preflight; a rejection before anything is done; a failure after
    the row was marked, with the calls made in between; a completion. *)
Inductive analyze_outcome (req : AnalyzeRequest) (w : World) :
    Response -> World -> Prop :=
| run_preflight :
    analyze_method req = OPTIONS ->
    analyze_outcome req w {| status := 200; body := BodyOk |} w
| run_rejected e :
    analyze_outcome req w {| status := 500; body := BodyError e |} w
| run_failed k e calls :
    analyze_body req = Some (Some k) -> k <> 0 -> Forall is_call calls ->
    analyze_outcome req w {| status := 500; body := BodyError e |}
      {| store := store_update k (patch_status failed)
                    (store_update k (patch_status analyzing) (store w));
         log := log w ++ EvUpdate k (patch_status analyzing)
                  :: calls ++ [EvUpdate k (patch_status failed)] |}
| run_completed k r ctx html :
    analyze_body req = Some (Some k) -> k <> 0 ->
    rows (store w) !! k = Some r ->
    analyze_outcome req w {| status := 200; body := BodySuccess k |}
      {| store := store_update k (patch_completed (extract_score html) html)
                    (store_update k (patch_status analyzing) (store w));
         log := log w ++
                [EvUpdate k (patch_status analyzing);
                 EvSearch (title r);
                 EvCompletion {| prompt_title := title r; prompt_search := ctx |};
                 EvUpdate k (patch_completed (extract_score html) html)] |}.

(** The events the edge functions and the dashboard produce. *)
Inductive written : Event -> Prop :=
| written_search q : written (EvSearch q)
| written_completion p : written (EvCompletion p)
| written_get_user : written EvGetUser
| written_invoke k : written (EvInvoke k)
| written_analyzing k : written (EvUpdate k (patch_status analyzing))
| written_failed k : written (EvUpdate k (patch_status failed))
| written_completed k html :
    written (EvUpdate k (patch_completed (extract_score html) html))
| written_project k p : written (EvUpdate k (patch_project p))
| written_insert k t u :
    written (EvInsert {| id := k; title := t; user_id := u;
                         analysis_status := analyzing; project_status := New;
                         score := None; analysis := None |}).

(** A property of rows that holds of every row of a table. *)
Definition all_rows (row_ok : Idea -> Prop) (s : Store) : Prop :=
  forall k r, rows s !! k = Some r -> row_ok r.

(** The row [r] with another value of [analysis_status] and nothing else
    changed. *)
Definition with_status (a : AnalysisStatus) (r : Idea) : Idea :=
  {| id := id r; title := title r; user_id := user_id r;
     analysis_status := a; project_status := project_status r;
     score := score r; analysis := analysis r |}.

(** ** Sample data *)

Module Sample.

Definition idea1 : Idea :=
  {| id := 1; title := lit "Blockchain for B2B marketing"; user_id := lit "u1";
     analysis_status := completed; project_status := New;
     score := Some 82; analysis := Some (marker (lit "82")) |}.

Definition table1 : Store := {| rows := {[ 1 := idea1 ]}; next_id := 2 |}.

Definition trigger1 : AnalyzeRequest :=
  {| analyze_method := POST; analyze_body := Some (Some 1) |}.

(** A completion body whose first choice has the given content. *)
Definition chat (content : Json) : Json :=
  JObj [(lit "choices",
         JArr [JObj [(lit "message", JObj [(lit "content", content)])]])].

(** A search body with no [web] key, as an error answer has. *)
Definition search_error_body : Json :=
  JObj [(lit "type", JStr (lit "ErrorResponse"))].

(** A search body with one result. *)
Definition search_body : Json :=
  JObj [(lit "web",
         JObj [(lit "results",
                JArr [JObj [(lit "title", JStr (lit "t"));
                            (lit "url", JStr (lit "u"));
                            (lit "description", JStr (lit "d"))]])])].

Definition search_down : AnalyzeEnv :=
  {| brave := NetworkFailure;
     openai := Responded 200 (Some (chat (JStr (marker (lit "82"))))) |}.

Definition search_rate_limited : AnalyzeEnv :=
  {| brave := Responded 429 (Some search_error_body);
     openai := Responded 200 (Some (chat (JStr (marker (lit "82"))))) |}.

Definition score_250 : AnalyzeEnv :=
  {| brave := Responded 200 (Some search_body);
     openai := Responded 200 (Some (chat (JStr (marker (lit "250"))))) |}.

Definition completion_down : AnalyzeEnv :=
  {| brave := Responded 200 (Some search_body);
     openai := Responded 503 None |}.

Definition no_content : AnalyzeEnv :=
  {| brave := Responded 200 (Some search_body);
     openai := Responded 200 (Some (chat JNull)) |}.

Definition idea2 : Idea :=
  {| id := 2; title := lit "Raising a puppy"; user_id := lit "u1";
     analysis_status := analyzing; project_status := New;
     score := None; analysis := None |}.

Definition table2 : Store :=
  {| rows := {[ 1 := idea1; 2 := idea2 ]}; next_id := 3 |}.

Definition trigger2 : AnalyzeRequest :=
  {| analyze_method := POST; analyze_body := Some (Some 2) |}.

Definition result (n : Z) : Json :=
  JObj [(lit "title", JStr (lit "t")); (lit "url", JNum n);
        (lit "description", JStr (lit "d"))].

(** A search body with seven results. *)
Definition search_body7 : Json :=
  JObj [(lit "web", JObj [(lit "results", JArr (map result [1; 2; 3; 4; 5; 6; 7]))])].

Definition report_82 : str :=
  lit "<html><body><p>" ++ marker (lit "82") ++ lit "</p></body></html>".

(** The providers of the first scenario of the specification. *)
Definition scenario_ok : AnalyzeEnv :=
  {| brave := Responded 200 (Some search_body7);
     openai := Responded 200 (Some (chat (JStr (wrap report_82)))) |}.

Definition submit_with (env : AnalyzeEnv) : Action :=
  Submit {| auth := User (lit "u1"); dispatch := DispatchRuns env |}
         {| submit_method := POST;
            submit_body := Some (Some (lit "Blockchain for B2B marketing")) |}.

Definition submit1 : Action :=
  Submit {| auth := User (lit "u1"); dispatch := DispatchRuns score_250 |}
         {| submit_method := POST;
            submit_body := Some (Some (lit "Blockchain for B2B marketing")) |}.

Definition table_after_submit1 : Store :=
  replay (events submit1 empty_store) empty_store.

Definition idea_250 : Idea :=
  {| id := 1; title := lit "Blockchain for B2B marketing"; user_id := lit "u1";
     analysis_status := completed; project_status := New;
     score := Some 250; analysis := Some (marker (lit "250")) |}.

End Sample.

(** ** Further notions used to state what the handlers do *)

(** The calls to the providers among the events of a run, in order. *)
Definition calls_of (evs : list Event) : list Event :=
  omap (fun ev => match ev with
                  | EvSearch _ | EvCompletion _ => Some ev
                  | _ => None
                  end) evs.

(** The identity sequence is ahead of every row, and a row is stored under
    its own identifier. *)
Definition store_wf (s : Store) : Prop :=
  0 < next_id s
  /\ forall k r, rows s !! k = Some r -> id r = k /\ 0 < k < next_id s.


(** A search body whose [web.results] is the array [l]. *)
Definition search_body_of (l : list Json) : Json :=
  JObj [(lit "web", JObj [(lit "results", JArr l)])].

(** The record made of a result that is an object with the given fields. *)
Definition result_of_fields (fields : list (str * Json)) : SearchResult :=
  {| sr_title := own_property (lit "title") fields;
     sr_url := own_property (lit "url") fields;
     sr_snippet := own_property (lit "description") fields |}.

(** What the search part of a run comes to, given the answer of the
    provider: lines 49 to 53. *)
Definition search_step (answer : FetchResult) : Exn + list SearchResult :=
  match answer with
  | NetworkFailure => inl FetchFailed
  | Responded _ None => inl SyntaxError
  | Responded _ (Some braveData) => searchContext braveData
  end.

(** What the completion part comes to: the text to store, lines 97 to
    120. *)
Definition completion_step (answer : FetchResult) : Exn + str :=
  match answer with
  | NetworkFailure => inl FetchFailed
  | Responded st b =>
      if negb (ok st) then inl (CompletionStatus st)
      else match b with
           | None => inl SyntaxError
           | Some chatCompletion =>
               bind_exn (choice_content chatCompletion)
                 (fun content =>
                    bind_exn (analysis_text content)
                      (fun text => inr (clean_fences text)))
           end
  end.

(** The table after a run that marked the row [k] and then wrote [p]. *)
Definition marked_then (k : Z) (p : Patch) (s : Store) : Store :=
  store_update k p (store_update k (patch_status analyzing) s).

(** A run on the row [r] stored under [k], as a composition of the two
    steps. *)
Definition pipeline (env : AnalyzeEnv) (k : Z) (r : Idea) (s : Store) :
    Response * World :=
  let marked := EvUpdate k (patch_status analyzing) in
  let gave_up := EvUpdate k (patch_status failed) in
  match search_step (brave env) with
  | inl e =>
      ({| status := 500; body := BodyError e |},
       {| store := marked_then k (patch_status failed) s;
          log := [marked; EvSearch (title r); gave_up] |})
  | inr ctx =>
      let asked := EvCompletion {| prompt_title := title r; prompt_search := ctx |} in
      match completion_step (openai env) with
      | inl e =>
          ({| status := 500; body := BodyError e |},
           {| store := marked_then k (patch_status failed) s;
              log := [marked; EvSearch (title r); asked; gave_up] |})
      | inr html =>
          ({| status := 200; body := BodySuccess k |},
           {| store := marked_then k (patch_completed (extract_score html) html) s;
              log := [marked; EvSearch (title r); asked;
                      EvUpdate k (patch_completed (extract_score html) html)] |})
      end
  end.


(** An insertion [fits] a table when it uses the next identifier of the
    sequence; the other events always fit. *)
Definition fits (s : Store) (ev : Event) : Prop :=
  match ev with
  | EvInsert r => id r = next_id s
  | _ => True
  end.

(** Every event of the list fits the table it happens on. *)
Fixpoint fitting (s : Store) (evs : list Event) : Prop :=
  match evs with
  | [] => True
  | ev :: evs' => fits s ev /\ fitting (apply_event s ev) evs'
  end.

Definition no_insert (ev : Event) : Prop :=
  match ev with
  | EvInsert _ => False
  | _ => True
  end.


(** ** More sample data *)

Module Cases.

(** A search answer whose first result is null. *)
Definition null_result : AnalyzeEnv :=
  {| brave := Responded 200 (Some (search_body_of [JNull]));
     openai := Responded 200 None |}.

(** A completion answer whose content is a list of parts, not a string. *)
Definition content_parts : AnalyzeEnv :=
  {| brave := Responded 200 (Some Sample.search_body);
     openai := Responded 200
                 (Some (Sample.chat (JArr [JObj [(lit "type", JStr (lit "text"))]]))) |}.

End Cases.

(** ** generate-daily-insights and the card that shows its result *)

Module Digest.

(** The white space of [String.prototype.trim] among the code units below
    256: TAB, LF, VT, FF, CR, the space and the no-break space. *)
Definition is_space (c : ascii) : bool :=
  let n := nat_of_ascii c in
  ((9 <=? n)%nat && (n <=? 13)%nat) || (n =? 32)%nat || (n =? 160)%nat.

Fixpoint trim_start (s : str) : str :=
  match s with
  | c :: s' => if is_space c then trim_start s' else s
  | [] => []
  end.

Definition trim_end (s : str) : str := rev (trim_start (rev s)).

(** [s.trim()] *)
Definition trim (s : str) : str := trim_end (trim_start s).

(** [s.substring(a, b)]: both indices are clamped to the string, and they
    are swapped when the first is the larger. *)
Definition substring (s : str) (a b : Z) : str :=
  let len := Z.of_nat (length s) in
  let a' := Z.min (Z.max a 0) len in
  let b' := Z.min (Z.max b 0) len in
  let from := Z.min a' b' in
  let to := Z.max a' b' in
  take (Z.to_nat (to - from)) (drop (Z.to_nat from) s).

(** [s.startsWith('```html')] *)
Definition startsWith_fence (s : str) : bool :=
  match starts_with (lit "```html") s with
  | Some _ => true
  | None => false
  end.

(** Lines 86 to 91: the content is trimmed; when it then starts with the
    fence its first seven and last three characters are cut and the rest
    is trimmed again. *)
Definition clean_insights (content : str) : str :=
  let insightsHtml := trim content in
  if startsWith_fence insightsHtml
  then trim (substring insightsHtml 7 (Z.of_nat (length insightsHtml) - 3))
  else insightsHtml.

(** [(r) => ({ title: r.title, snippet: r.description })] *)
Definition to_entry (r : Json) : Exn + (jsval * jsval) :=
  (t <- prop "title" (Some r);;
   d <- prop "description" (Some r);;
   inr (t, d))%exn.

(** [braveData.web?.results.map(...) || []] *)
Definition searchContext (braveData : Json) : Exn + list (jsval * jsval) :=
  (web <- prop "web" (Some braveData);;
   match web with
   | None | Some JNull => inr []
   | Some _ =>
       results <- prop "results" web;;
       match results with
       | Some (JArr l) => map_exn to_entry l
       | _ => inl TypeError
       end
   end)%exn.

(** The receiver of [chatCompletion.choices[0].message.content.trim()]:
    only a string has [trim]. *)
Definition content_string (chatCompletion : Json) : Exn + str :=
  (content <- choice_content chatCompletion;;
   match content with
   | Some (JStr s) => inr s
   | _ => inl TypeError
   end)%exn.

Inductive Error :=
| SearchStatus (status : Z)   (* new Error(`Brave API request failed: ...`) *)
| Thrown (e : Exn).

Inductive Event :=
| EvSearch                                  (* GET with the fixed query *)
| EvCompletion (ctx : list (jsval * jsval)) (* POST to the completion provider *)
| EvInsert (content : str).                 (* from('daily_insights').insert *)

(** The contents of the rows of [daily_insights], oldest first, and the
    events so far. *)
Record World := {
  daily_insights : list str;
  log : list Event;
}.

Inductive Body :=
| BodyOk
| BodySuccess (insights : str)  (* { success: true, insights } *)
| BodyError (e : Error).

Record Response := {
  status : Z;
  body : Body;
}.

Definition M (A : Type) : Type := World -> (Error + A) * World.

Definition ret {A} (a : A) : M A := fun w => (inr a, w).
Definition throw {A} (e : Error) : M A := fun w => (inl e, w).
Definition bind {A B} (m : M A) (f : A -> M B) : M B :=
  fun w =>
    match m w with
    | (inl e, w') => (inl e, w')
    | (inr a, w') => f a w'
    end.
Definition lift {A} (r : Exn + A) : M A :=
  fun w => (match r with inl e => inl (Thrown e) | inr a => inr a end, w).
Definition emit (ev : Event) : M unit :=
  fun w => (inr tt, {| daily_insights := daily_insights w; log := log w ++ [ev] |}).

Declare Scope digest_scope.
Delimit Scope digest_scope with D.
Notation "x <- m ;; k" := (bind m (fun x => k))
  (at level 100, m at next level, right associativity) : digest_scope.
Notation "m ;; k" := (bind m (fun _ => k))
  (at level 100, right associativity) : digest_scope.

(** [await response.json()] *)
Definition json (b : option Json) : M Json :=
  match b with
  | Some j => ret j
  | None => throw (Thrown SyntaxError)
  end.

Definition fetch (ev : Event) (answer : FetchResult) : M (Z * option Json) :=
  (emit ev;;
   match answer with
   | NetworkFailure => throw (Thrown FetchFailed)
   | Responded st b => ret (st, b)
   end)%D.

(** [await from('daily_insights').insert({ content })]: the error of the
    pair [{ error }]. *)
Definition insert (content : str) : M (option Exn) :=
  fun w => (inr None, {| daily_insights := daily_insights w ++ [content];
                         log := log w ++ [EvInsert content] |}).

(** The [try] block. *)
Definition insights (env : AnalyzeEnv) : M str :=
  (braveResponse <- fetch EvSearch (brave env);;
   if negb (ok (fst braveResponse)) then throw (SearchStatus (fst braveResponse))
   else
     braveData <- json (snd braveResponse);;
     ctx <- lift (searchContext braveData);;
     openAIResponse <- fetch (EvCompletion ctx) (openai env);;
     if negb (ok (fst openAIResponse))
     then throw (Thrown (CompletionStatus (fst openAIResponse)))
     else
       chatCompletion <- json (snd openAIResponse);;
       content <- lift (content_string chatCompletion);;
       let insightsHtml := clean_insights content in
       insertError <- insert insightsHtml;;
       match insertError with
       | Some e => throw (Thrown e)
       | None => ret insightsHtml
       end)%D.

(** The handler given to [serve]. *)
Definition generate_daily_insights (env : AnalyzeEnv) (method : Method)
    (w : World) : Response * World :=
  match method with
  | OPTIONS => ({| status := 200; body := BodyOk |}, w)
  | _ =>
      match insights env w with
      | (inr insightsHtml, w') =>
          ({| status := 200; body := BodySuccess insightsHtml |}, w')
      | (inl e, w') => ({| status := 500; body := BodyError e |}, w')
      end
  end.

(** What the card holds after [fetchInsights]: the markup it shows and the
    error, if any. *)
Record Card := {
  shown : option str;
  error : option Exn;
  loading : bool;
}.

Definition no_insights : str :=
  lit "<p>No insights found. Click Refresh to generate them!</p>".
Definition could_not_load : str := lit "<p>Could not load insights.</p>".

(** [fetchInsights]: the newest row, [single] giving an error when there
    is no row; [data?.content || '<p>No insights ...</p>']. *)
Definition fetchInsights (table : list str) : Card :=
  match last table with
  | None =>
      {| shown := Some could_not_load; error := Some StoreError; loading := false |}
  | Some content =>
      {| shown := Some (if falsy (Some (JStr content)) then no_insights else content);
         error := None; loading := false |}
  end.

End Digest.

(** ** The event bus of the dashboard *)

Module EventBus.

(** A callback is known by its identity only: [off] compares callbacks
    with [!==].  What a callback does when called is outside the bus. *)
Abbreviation Callback := nat.

(** The object [events]: the own keys and their arrays. *)
Abbreviation Events := (gmap string (list Callback)).

(** The keys every object literal inherits from [Object.prototype]: for
    these [events[event]] is there without being set, and is not an
    array. *)
Definition inherited (event : string) : bool :=
  existsb (String.eqb event)
    ["constructor"; "__defineGetter__"; "__defineSetter__"; "hasOwnProperty";
     "__lookupGetter__"; "__lookupSetter__"; "isPrototypeOf";
     "propertyIsEnumerable"; "toString"; "valueOf"; "__proto__";
     "toLocaleString"]%string.

(** [on(event, callback)]: [push] on what [events[event]] is. *)
Definition on (event : string) (callback : Callback) (events : Events) :
    Exn + Events :=
  if inherited event then inl TypeError
  else inr (<[event := default [] (events !! event) ++ [callback]]> events).

(** [emit(event, data)]: the callbacks called with [data], in order. *)
Definition emit (event : string) (events : Events) : Exn + list Callback :=
  if inherited event then inl TypeError
  else inr (default [] (events !! event)).

(** [off(event, callback)]: [filter(cb => cb !== callback)]. *)
Definition off (event : string) (callback : Callback) (events : Events) :
    Exn + Events :=
  if inherited event then inl TypeError
  else match events !! event with
       | Some l => inr (<[event := filter (fun cb => cb <> callback) l]> events)
       | None => inr events
       end.

Inductive Op :=
| On (event : string) (callback : Callback)
| Off (event : string) (callback : Callback).

Definition op_event (o : Op) : string :=
  match o with On e _ | Off e _ => e end.

Definition apply_op (o : Op) (events : Events) : Exn + Events :=
  match o with
  | On e cb => on e cb events
  | Off e cb => off e cb events
  end.

(** A sequence of registrations and removals, stopping at the first
    throw. *)
Fixpoint run (ops : list Op) (events : Events) : Exn + Events :=
  match ops with
  | [] => inr events
  | o :: ops' => bind_exn (apply_op o events) (run ops')
  end.

(** The listeners of [event] as the operations on that name alone leave
    them, starting from [l]. *)
Fixpoint listeners (event : string) (ops : list Op) (l : list Callback) :
    list Callback :=
  match ops with
  | [] => l
  | On e cb :: ops' =>
      listeners event ops' (if String.eqb e event then l ++ [cb] else l)
  | Off e cb :: ops' =>
      listeners event ops'
        (if String.eqb e event then filter (fun c => c <> cb) l else l)
  end.

(** How often [callback] was registered for [event] since it was last
    removed, [n] being the count before. *)
Fixpoint registrations (event : string) (callback : Callback) (ops : list Op)
    (n : nat) : nat :=
  match ops with
  | [] => n
  | On e cb :: ops' =>
      registrations event callback ops'
        (if String.eqb e event && Nat.eqb cb callback then S n else n)
  | Off e cb :: ops' =>
      registrations event callback ops'
        (if String.eqb e event && Nat.eqb cb callback then 0%nat else n)
  end.

End EventBus.

(** ** The template and the title: [String.prototype.replace] with a
    string pattern *)

Module Template.

Definition placeholder : str := lit "{{IDEA_TITLE}}".

Definition dollar : ascii := ascii_of_nat 36.

(** The text a replacement string stands for (GetSubstitution): with a
    string pattern there are no captures, so [$$], [$&], [$`] and [$']
    are the only sequences that are not taken as they are written. *)
Fixpoint substitution (matched before after repl : str) : str :=
  match repl with
  | [] => []
  | c :: rest =>
      if Ascii.eqb c dollar then
        match rest with
        | c' :: rest' =>
            if Ascii.eqb c' dollar then dollar :: substitution matched before after rest'
            else if Ascii.eqb c' (ascii_of_nat 38)
                 then matched ++ substitution matched before after rest'
            else if Ascii.eqb c' (ascii_of_nat 96)
                 then before ++ substitution matched before after rest'
            else if Ascii.eqb c' (ascii_of_nat 39)
                 then after ++ substitution matched before after rest'
            else c :: substitution matched before after rest
        | [] => [c]
        end
      else c :: substitution matched before after rest
  end.

(** The leftmost occurrence of [pat] in [s]: what stands before it and
    after it. *)
Fixpoint find (pat s : str) : option (str * str) :=
  match starts_with pat s with
  | Some after => Some ([], after)
  | None =>
      match s with
      | [] => None
      | c :: s' =>
          match find pat s' with
          | Some (before, after) => Some (c :: before, after)
          | None => None
          end
      end
  end.

(** [s.replace(pat, repl)] for strings [pat] and [repl]. *)
Definition replace (pat repl s : str) : str :=
  match find pat s with
  | Some (before, after) => before ++ substitution pat before after repl ++ after
  | None => s
  end.

(** [analysisBlueprint.replace('{{IDEA_TITLE}}', idea.title)] *)
Definition finalBlueprint (analysisBlueprint title : str) : str :=
  replace placeholder title analysisBlueprint.

Definition no_dollar (s : str) : Prop := ~ In dollar s.

End Template.

(** ** The table of ideas in the dashboard: the handler of row changes *)

Module IdeasTable.

(** A row as the dashboard holds it: the fields of an object, read by
    name. *)
Abbreviation Row := (list (str * Json)).

(** [a === b] on two values read from different objects: by value on
    null, booleans, numbers and strings; arrays and objects are equal only
    to themselves. *)
Definition strict_equal (a b : jsval) : bool :=
  match a, b with
  | None, None => true
  | Some JNull, Some JNull => true
  | Some (JBool x), Some (JBool y) => Bool.eqb x y
  | Some (JNum x), Some (JNum y) => Z.eqb x y
  | Some (JStr x), Some (JStr y) => str_eqb x y
  | _, _ => false
  end.

(** [{ ...idea, ...newIdea }]: read by name, the fields of [newIdea] win. *)
Definition spread (idea newIdea : Row) : Row := idea ++ newIdea.

(** The callback of [postgres_changes], applied to the rows held:
    [payload.new && 'id' in payload.new] guards
    [currentIdeas.map(idea => idea.id === newIdea.id ? {...idea, ...newIdea} : idea)]. *)
Definition on_change (payload_new : option Row) (currentIdeas : list Row) :
    list Row :=
  match payload_new with
  | Some newIdea =>
      match own_property (lit "id") newIdea with
      | Some _ =>
          map (fun idea =>
                 if strict_equal (own_property (lit "id") idea)
                      (own_property (lit "id") newIdea)
                 then spread idea newIdea else idea)
              currentIdeas
      | None => currentIdeas
      end
  | None => currentIdeas
  end.

End IdeasTable.

(** * Properties *)

(** ** Literals at the head and at the end of a string *)

Module StrFacts.

Lemma starts_with_app (p r : str) : starts_with p (p ++ r) = Some r.
Proof.
  induction p as [|a p IH]; simpl; [reflexivity|].
  now rewrite Ascii.eqb_refl.
Qed.

Lemma starts_with_Some (p s r : str) : starts_with p s = Some r -> s = p ++ r.
Proof.
  revert s; induction p as [|a p IH]; intros s; simpl.
  - now intros [= ->].
  - destruct s as [|b s]; [discriminate|].
    destruct (Ascii.eqb_spec a b) as [->|]; [|discriminate].
    now intros ->%IH.
Qed.

Lemma starts_with_iff (p s r : str) : starts_with p s = Some r <-> s = p ++ r.
Proof.
  split; [apply starts_with_Some|intros ->; apply starts_with_app].
Qed.

Lemma starts_with_None (p s : str) :
  starts_with p s = None <-> forall r, s <> p ++ r.
Proof.
  split.
  - intros H r ->. rewrite starts_with_app in H. discriminate.
  - intros H. destruct (starts_with p s) as [r|] eqn:E; [|reflexivity].
    apply starts_with_Some in E. now destruct (H r).
Qed.

Lemma ends_with_app (p r : str) : ends_with p (r ++ p) = Some r.
Proof.
  unfold ends_with. rewrite rev_app_distr, starts_with_app.
  now rewrite rev_involutive.
Qed.

Lemma ends_with_Some (p s r : str) : ends_with p s = Some r -> s = r ++ p.
Proof.
  unfold ends_with.
  destruct (starts_with (rev p) (rev s)) as [q|] eqn:E; [|discriminate].
  intros [= <-]. apply starts_with_Some in E.
  rewrite <- (rev_involutive s), E, rev_app_distr.
  now rewrite rev_involutive.
Qed.

Lemma ends_with_None (p s : str) :
  ends_with p s = None <-> forall r, s <> r ++ p.
Proof.
  split.
  - intros H r ->. rewrite ends_with_app in H. discriminate.
  - intros H. destruct (ends_with p s) as [r|] eqn:E; [|reflexivity].
    apply ends_with_Some in E. now destruct (H r).
Qed.

End StrFacts.

Import StrFacts.

(** ** Code-fence normalization *)

Lemma replace_leading_fence_id (t : str) :
  ~ begins_with_fence t -> replace_leading_fence t = t.
Proof.
  intros H. unfold replace_leading_fence.
  destruct (starts_with fence_open t) as [r|] eqn:E; [|reflexivity].
  destruct H. exists r. now apply starts_with_Some.
Qed.

Lemma replace_trailing_fence_id (t : str) :
  ~ ends_with_fence t -> replace_trailing_fence t = t.
Proof.
  intros H. unfold replace_trailing_fence.
  destruct (ends_with fence_close t) as [r|] eqn:E; [|reflexivity].
  destruct H. exists r. now apply ends_with_Some.
Qed.

Lemma clean_fences_wrap (b : str) : clean_fences (wrap b) = b.
Proof.
  unfold clean_fences, wrap, replace_leading_fence, replace_trailing_fence.
  now rewrite starts_with_app, ends_with_app.
Qed.

Lemma clean_fences_frame (t : str) :
  exists p q, t = p ++ clean_fences t ++ q
    /\ (p = [] \/ p = fence_open) /\ (q = [] \/ q = fence_close).
Proof.
  unfold clean_fences, replace_leading_fence.
  destruct (starts_with fence_open t) as [r|] eqn:E1.
  - apply starts_with_Some in E1. subst t. exists fence_open.
    unfold replace_trailing_fence.
    destruct (ends_with fence_close r) as [r'|] eqn:E2.
    + apply ends_with_Some in E2. subst r. exists fence_close. auto.
    + exists []. rewrite app_nil_r. auto.
  - exists []. unfold replace_trailing_fence.
    destruct (ends_with fence_close t) as [r'|] eqn:E2.
    + apply ends_with_Some in E2. subst t. exists fence_close. auto.
    + exists []. rewrite app_nil_r. auto.
Qed.

Lemma clean_fences_leading (r : str) :
  clean_fences (fence_open ++ r) = replace_trailing_fence r.
Proof.
  unfold clean_fences, replace_leading_fence. now rewrite starts_with_app.
Qed.

Lemma replace_trailing_fence_app (r : str) :
  replace_trailing_fence (r ++ fence_close) = r.
Proof. unfold replace_trailing_fence. now rewrite ends_with_app. Qed.

(** C9, as the code has it: each of the two fence lines is removed
    whether or not the other one is there.  A text that neither begins
    with the opening fence line nor ends with the closing one is returned
    unchanged.  After an opening fence line, the rest is returned, less a
    closing fence line when the rest ends with one: so a wrapped body is
    returned as the body, whatever the body is, and a text with the
    opening fence line only loses it.  A text that does not begin with the
    opening fence line and ends with the closing one loses the closing
    one.  So in every case the result is the input less an opening
    fence line at its head, a closing fence line at its end, both or none:
    nothing else is changed. *)
Theorem clean_fences_independent_strips :
  (forall t : str,
      ~ begins_with_fence t -> ~ ends_with_fence t -> clean_fences t = t)
  /\ (forall b : str, clean_fences (wrap b) = b)
  /\ (forall r : str,
        ~ ends_with_fence r -> clean_fences (fence_open ++ r) = r)
  /\ (forall r : str,
        ~ begins_with_fence (r ++ fence_close) ->
        clean_fences (r ++ fence_close) = r)
  /\ (forall t : str, exists p q,
        t = p ++ clean_fences t ++ q
        /\ (p = [] \/ p = fence_open) /\ (q = [] \/ q = fence_close)).
Proof.
  split; [|split; [|split; [|split]]].
  - intros t Hb He. unfold clean_fences.
    rewrite (replace_leading_fence_id t Hb).
    now apply replace_trailing_fence_id.
  - apply clean_fences_wrap.
  - intros r He. rewrite clean_fences_leading.
    now apply replace_trailing_fence_id.
  - intros r Hb. unfold clean_fences.
    rewrite (replace_leading_fence_id _ Hb).
    apply replace_trailing_fence_app.
  - apply clean_fences_frame.
Qed.

Lemma clean_fences_independent_strips_witness :
  clean_fences placeholder_report = placeholder_report.
Proof.
  apply (proj1 clean_fences_independent_strips).
  - intros [r Hr]. apply starts_with_iff in Hr. vm_compute in Hr. discriminate.
  - intros [r Hr].
    assert (E : ends_with fence_close placeholder_report = Some r)
      by (rewrite Hr; apply ends_with_app).
    vm_compute in E. discriminate.
Defined.

(** C9 as stated fails: a text with the opening fence line only does not
    carry the wrapper, and yet it is changed. *)
Lemma clean_fences_half_wrapped :
  ~ (forall t : str, ~ wrapped t -> clean_fences t = t).
Proof.
  intros H. specialize (H (fence_open ++ lit "abc")).
  assert (E : clean_fences (fence_open ++ lit "abc") = lit "abc") by reflexivity.
  rewrite E in H. clear E.
  assert (W : ~ wrapped (fence_open ++ lit "abc")).
  { intros [b Hb]. unfold wrap in Hb. apply app_inv_head in Hb.
    assert (E : ends_with fence_close (lit "abc") = Some b)
      by (rewrite Hb; apply ends_with_app).
    vm_compute in E. discriminate. }
  specialize (H W). vm_compute in H. discriminate.
Qed.

(** ** Score extraction *)

Lemma span_digits_split (s : str) :
  s = fst (span_digits s) ++ snd (span_digits s)
  /\ forallb is_digit (fst (span_digits s)) = true.
Proof.
  induction s as [|c s [IH1 IH2]]; simpl; [auto|].
  destruct (is_digit c) eqn:Ec; [|auto].
  destruct (span_digits s) as [d r]; simpl in *.
  rewrite Ec, IH2. split; [congruence|reflexivity].
Qed.

Lemma span_digits_app (d r : str) :
  forallb is_digit d = true ->
  match r with c :: _ => is_digit c = false | [] => True end ->
  span_digits (d ++ r) = (d, r).
Proof.
  intros Hd Hr. induction d as [|c d IH]; simpl in *.
  - destruct r as [|c r]; [reflexivity|]. simpl. now rewrite Hr.
  - apply andb_prop in Hd as [-> Hd]. now rewrite (IH Hd).
Qed.

Lemma marker_is_form (d : str) : marker d = marker_form "."%char d.
Proof. unfold marker, marker_form, marker_open. now rewrite <- !app_assoc. Qed.

Lemma marker_at_form (s pre d : str) :
  marker_at s pre d -> form_at s pre "."%char d.
Proof.
  intros (post & E & H). exists post. rewrite <- marker_is_form.
  split; [assumption|]. split; [reflexivity|assumption].
Qed.

Lemma form_assoc (c : ascii) (d post : str) :
  marker_form c d ++ post
  = pattern_head ++ c :: pattern_tail ++ d ++ marker_close ++ post.
Proof.
  unfold marker_form. rewrite <- !app_assoc. rewrite <- app_comm_cons.
  now rewrite <- !app_assoc.
Qed.

(** The pattern applies at the head exactly when a text of the form of the
    marker stands there. *)
Lemma match_here_iff (s d : str) :
  match_here s = Some d <-> exists c, form_at s [] c d.
Proof.
  unfold match_here, form_at. split.
  - destruct (starts_with pattern_head s) as [[|c r0]|] eqn:E0; try discriminate.
    apply starts_with_Some in E0.
    destruct (is_line_terminator c) eqn:Ec; [discriminate|].
    destruct (starts_with pattern_tail r0) as [r1|] eqn:E1; [|discriminate].
    apply starts_with_Some in E1.
    destruct (span_digits_split r1) as [Hs Hd].
    destruct (span_digits r1) as [d' r2]. cbn [fst snd] in Hs, Hd.
    destruct d' as [|c' d']; [discriminate|].
    destruct (starts_with marker_close r2) as [post|] eqn:E2; [|discriminate].
    apply starts_with_Some in E2. intros [= <-].
    exists c, post. rewrite form_assoc. rewrite app_nil_l.
    split; [congruence|]. split; [assumption|].
    split; [discriminate|assumption].
  - intros (c & post & -> & Hc & Hne & Hd). rewrite app_nil_l.
    rewrite form_assoc, starts_with_app. rewrite Hc, starts_with_app.
    rewrite (span_digits_app d (marker_close ++ post) Hd) by reflexivity.
    destruct d as [|c' d]; [congruence|].
    now rewrite starts_with_app.
Qed.

Lemma form_at_cons (a : ascii) (s pre : str) (c : ascii) (d : str) :
  form_at s pre c d -> form_at (a :: s) (a :: pre) c d.
Proof. intros (post & -> & H). exists post. now split. Qed.

Lemma form_at_uncons (a : ascii) (s pre : str) (c : ascii) (d : str) :
  form_at (a :: s) pre c d -> pre <> [] ->
  exists pre', pre = a :: pre' /\ form_at s pre' c d.
Proof.
  intros (post & E & H) Hne. destruct pre as [|a' pre]; [congruence|].
  rewrite <- app_comm_cons in E. injection E as <- ->.
  exists pre. split; [reflexivity|].
  exists post. now split.
Qed.

Lemma scoreMatch_nil : scoreMatch [] = None.
Proof. reflexivity. Qed.

Lemma scoreMatch_cons (c : ascii) (s : str) :
  scoreMatch (c :: s) =
  match match_here (c :: s) with Some d => Some d | None => scoreMatch s end.
Proof. reflexivity. Qed.

Lemma no_form_in_nil (pre : str) (c : ascii) (d : str) : ~ form_at [] pre c d.
Proof.
  intros Hat. assert (pre = []) as ->.
  { destruct Hat as (post & E & _). destruct pre; [reflexivity|discriminate]. }
  assert (E : match_here [] = Some d) by (apply match_here_iff; eauto).
  discriminate.
Qed.

(** The match is the leftmost text of the form of the marker, and the
    capture group is its run of digits. *)
Lemma scoreMatch_iff (s d : str) :
  scoreMatch s = Some d <->
  exists pre c,
    form_at s pre c d
    /\ forall pre' c' d', form_at s pre' c' d' -> (length pre <= length pre')%nat.
Proof.
  induction s as [|a s IH] in d |- *.
  - rewrite scoreMatch_nil. split; [discriminate|].
    intros (pre & c & Hat & _). now apply no_form_in_nil in Hat.
  - rewrite scoreMatch_cons. destruct (match_here (a :: s)) as [d0|] eqn:E0.
    + split.
      * intros [= <-]. apply match_here_iff in E0 as [c Hc].
        exists [], c. split; [assumption|]. intros; simpl; lia.
      * intros (pre & c & Hat & Hmin).
        apply match_here_iff in E0 as [c0 Hc0].
        specialize (Hmin _ _ _ Hc0). simpl in Hmin.
        destruct pre; [|simpl in Hmin; lia].
        assert (E1 : match_here (a :: s) = Some d)
          by (apply match_here_iff; eauto).
        assert (E2 : match_here (a :: s) = Some d0)
          by (apply match_here_iff; eauto).
        congruence.
    + assert (Hnot : forall pre' c' d', form_at (a :: s) pre' c' d' -> pre' <> []).
      { intros pre' c' d' Hat ->.
        assert (E1 : match_here (a :: s) = Some d')
          by (apply match_here_iff; eauto).
        congruence. }
      rewrite IH. split.
      * intros (pre & c & Hat & Hmin). exists (a :: pre), c.
        split; [now apply form_at_cons|].
        intros pre' c' d' Hat'.
        destruct (form_at_uncons _ _ _ _ _ Hat' (Hnot _ _ _ Hat'))
          as (p & -> & Hp).
        specialize (Hmin _ _ _ Hp). simpl. lia.
      * intros (pre & c & Hat & Hmin).
        destruct (form_at_uncons _ _ _ _ _ Hat (Hnot _ _ _ Hat))
          as (p & -> & Hp).
        exists p, c. split; [assumption|].
        intros pre' c' d' Hat'.
        specialize (Hmin _ _ _ (form_at_cons a _ _ _ _ Hat')).
        simpl in Hmin. lia.
Qed.

Lemma scoreMatch_None (s : str) :
  scoreMatch s = None <-> ~ contains_form s.
Proof.
  split.
  - intros E (pre & c & d & Hat).
    induction s as [|a s IH] in pre, Hat, E |- *.
    + now apply no_form_in_nil in Hat.
    + rewrite scoreMatch_cons in E.
      destruct (match_here (a :: s)) as [d0|] eqn:E0; [discriminate|].
      assert (Hne : pre <> []).
      { intros ->.
        assert (E1 : match_here (a :: s) = Some d)
          by (apply match_here_iff; eauto).
        congruence. }
      destruct (form_at_uncons _ _ _ _ _ Hat Hne) as (p & -> & Hp).
      now apply (IH E p).
  - intros Hn. destruct (scoreMatch s) as [d|] eqn:E; [|reflexivity].
    apply scoreMatch_iff in E as (pre & c & Hat & _).
    destruct Hn. now exists pre, c, d.
Qed.

Lemma scoreMatch_leftmost (s pre d : str) :
  leftmost_marker s pre d -> scoreMatch s = Some d.
Proof.
  intros [Hat Hmin]. apply scoreMatch_iff.
  exists pre, "."%char. split; [now apply marker_at_form|assumption].
Qed.

Lemma scoreMatch_digits (s d : str) :
  scoreMatch s = Some d -> d <> [] /\ forallb is_digit d = true.
Proof.
  intros E. apply scoreMatch_iff in E as (pre & c & (post & _ & _ & H) & _).
  exact H.
Qed.

(** ** The number of a run of digits *)

Lemma digit_value_nonneg (c : ascii) : is_digit c = true -> 0 <= digit_value c.
Proof.
  unfold is_digit, digit_value. intros H. apply andb_prop in H as [H _].
  apply Nat.leb_le in H. lia.
Qed.

Lemma fold_digits_nonneg (d : str) (acc : Z) :
  0 <= acc -> forallb is_digit d = true ->
  0 <= fold_left (fun acc c => 10 * acc + digit_value c) d acc.
Proof.
  revert acc. induction d as [|c d IH]; intros acc Hacc Hd; simpl in *.
  - assumption.
  - apply andb_prop in Hd as [Hc Hd]. apply IH; [|assumption].
    apply digit_value_nonneg in Hc. lia.
Qed.

Lemma decimal_nonneg (d : str) : forallb is_digit d = true -> 0 <= decimal d.
Proof. intros Hd. now apply fold_digits_nonneg. Qed.

Lemma to_double_exact (n : Z) : n < 2 ^ 53 -> to_double n = Finite n.
Proof.
  intros Hn. unfold to_double.
  destruct (Z.ltb_spec n (2 ^ 53)) as [_|Hge]; [reflexivity|].
  now apply Z.le_ngt in Hge.
Qed.

Lemma to_double_nonneg (n z : Z) : 0 <= n -> to_double n = Finite z -> 0 <= z.
Proof.
  intros Hn. unfold to_double.
  destruct (n <? 2 ^ 53); [now intros [= <-]|].
  cbv zeta.
  match goal with |- context [Z.leb ?a ?b] => destruct (Z.leb a b) end;
    [discriminate|].
  intros [= <-]. apply Z.shiftl_nonneg.
  assert (Hm : 0 <= Z.shiftr n (Z.log2 n - 52)) by now apply Z.shiftr_nonneg.
  match goal with |- context [if ?b then _ else _] => destruct b end; lia.
Qed.

(** [to_double] is the rounding of the doubles: the parts of an integer
    from 2^53 on. *)
Lemma double_parts (n : Z) :
  2 ^ 53 <= n ->
  let e := Z.log2 n - 52 in
  let m := Z.shiftr n e in
  0 < e /\ 2 ^ e = 2 * 2 ^ (e - 1) /\ 0 < 2 ^ (e - 1)
  /\ 2 ^ 52 <= m < 2 ^ 53
  /\ 0 <= n - Z.shiftl m e < 2 ^ e
  /\ Z.shiftl m e = m * 2 ^ e.
Proof.
  intros Hn e m.
  assert (Hpos : 0 < n) by (assert (0 < 2 ^ 53) by reflexivity; lia).
  assert (Hl : 53 <= Z.log2 n).
  { change 53 with (Z.log2 (2 ^ 53)). now apply Z.log2_le_mono. }
  assert (He : 0 < e) by (subst e; lia).
  destruct (Z.log2_spec n Hpos) as [Hlo Hhi].
  assert (Hp : 0 < 2 ^ (e - 1)) by (apply Z.pow_pos_nonneg; lia).
  assert (H2 : 2 ^ e = 2 * 2 ^ (e - 1)).
  { replace e with (Z.succ (e - 1)) at 1 by lia. apply Z.pow_succ_r. lia. }
  assert (Elo : 2 ^ Z.log2 n = 2 ^ 52 * 2 ^ e).
  { rewrite <- Z.pow_add_r by lia. f_equal. subst e. lia. }
  assert (Ehi : 2 ^ Z.succ (Z.log2 n) = 2 ^ 53 * 2 ^ e).
  { rewrite <- Z.pow_add_r by lia. f_equal. subst e. lia. }
  assert (Hm : m = n / 2 ^ e) by (subst m; apply Z.shiftr_div_pow2; lia).
  assert (Hs : Z.shiftl m e = m * 2 ^ e) by (apply Z.shiftl_mul_pow2; lia).
  assert (Hmod : 0 <= n mod 2 ^ e < 2 ^ e) by (apply Z.mod_pos_bound; lia).
  assert (Hdiv : n = 2 ^ e * m + n mod 2 ^ e)
    by (rewrite Hm; apply Z.div_mod; lia).
  split; [assumption|]. split; [assumption|]. split; [assumption|].
  split.
  - rewrite Hm. split.
    + apply Z.div_le_lower_bound; lia.
    + apply Z.div_lt_upper_bound; lia.
  - split; [|assumption]. rewrite Hs. lia.
Qed.

(** The result is a double, no other double is nearer, and of two doubles
    at the same distance it is the one with the even significand. *)
Lemma to_double_nearest (n v : Z) :
  2 ^ 53 <= n -> to_double n = Finite v ->
  exists m e,
    0 < e /\ 2 ^ 52 <= m <= 2 ^ 53 /\ v = m * 2 ^ e /\ v < 2 ^ 1024
    /\ 2 * Z.abs (v - n) <= 2 ^ e
    /\ (2 * Z.abs (v - n) = 2 ^ e -> Z.even m = true).
Proof.
  intros Hn. destruct (double_parts n Hn) as (He & H2 & Hp & Hm & Hr & Hs).
  unfold to_double. destruct (Z.ltb_spec n (2 ^ 53)) as [Hlt|_]; [lia|].
  cbv zeta.
  set (e := Z.log2 n - 52) in *. set (m := Z.shiftr n e) in *.
  set (rest := n - Z.shiftl m e) in *. set (half := 2 ^ (e - 1)) in *.
  destruct ((half <? rest) || ((rest =? half) && Z.odd m)) eqn:Eup.
  - destruct (Z.leb_spec (2 ^ 1024) (Z.shiftl (m + 1) e)) as [|Hfin];
      [discriminate|].
    intros [= <-]. exists (m + 1), e.
    assert (Hs1 : Z.shiftl (m + 1) e = (m + 1) * 2 ^ e)
      by (apply Z.shiftl_mul_pow2; lia).
    rewrite Hs1 in *.
    split; [assumption|]. split; [lia|]. split; [reflexivity|].
    split; [assumption|].
    apply orb_prop in Eup as [Eup|Eup].
    + apply Z.ltb_lt in Eup. split; [lia|]. lia.
    + apply andb_prop in Eup as [E1 E2]. apply Z.eqb_eq in E1.
      split; [lia|]. intros _. rewrite Z.even_add. 
      rewrite <- Z.negb_odd, E2. reflexivity.
  - destruct (Z.leb_spec (2 ^ 1024) (Z.shiftl m e)) as [|Hfin];
      [discriminate|].
    intros [= <-]. exists m, e. rewrite Hs in *.
    split; [assumption|]. split; [lia|]. split; [reflexivity|].
    split; [assumption|].
    apply orb_false_elim in Eup as [E1 E2]. apply Z.ltb_ge in E1.
    split; [lia|]. intros Habs.
    assert (Eh : rest = half) by lia.
    apply Z.eqb_eq in Eh. rewrite Eh in E2. cbn in E2.
    rewrite <- Z.negb_odd, E2. reflexivity.
Qed.

Lemma double_range :
  2 ^ 1024 = 2 ^ 53 * 2 ^ 971 /\ 2 ^ 971 = 2 * 2 ^ 970 /\ 0 < 2 ^ 970
  /\ 2 ^ 53 = 2 * 2 ^ 52 /\ 0 < 2 ^ 52.
Proof. repeat split; reflexivity. Qed.

(** [Infinity] is the result from the middle between the largest double
    and 2^1024 on. *)
Lemma to_double_overflow (n : Z) :
  to_double n = Infinity <-> 2 ^ 1024 - 2 ^ 970 <= n.
Proof.
  destruct double_range as (R1 & R2 & R3 & R4 & R5).
  unfold to_double. destruct (Z.ltb_spec n (2 ^ 53)) as [Hlt|Hn].
  - split; [discriminate|]. intros Hge. exfalso.
    assert (2 ^ 53 * 1 <= 2 ^ 53 * 2 ^ 970) by (apply Z.mul_le_mono_nonneg_l; lia).
    nia.
  - destruct (double_parts n Hn) as (He & H2 & Hp & Hm & Hr & Hs).
    cbv zeta.
    set (e := Z.log2 n - 52) in *. set (m := Z.shiftr n e) in *.
    set (rest := n - Z.shiftl m e) in *. set (half := 2 ^ (e - 1)) in *.
    assert (Hle : e <= 970 -> 2 * 2 ^ e <= 2 ^ 971).
    { intros H. rewrite R2. apply Z.mul_le_mono_nonneg_l; [lia|].
      apply Z.pow_le_mono_r; lia. }
    assert (Hge : 972 <= e -> 2 * 2 ^ 971 <= 2 ^ e).
    { intros H. replace (2 * 2 ^ 971) with (2 ^ 972) by reflexivity.
      apply Z.pow_le_mono_r; lia. }
    assert (Heq : e = 971 -> 2 ^ e = 2 ^ 971 /\ half = 2 ^ 970).
    { intros H. subst half. rewrite H. split; reflexivity. }
    destruct ((half <? rest) || ((rest =? half) && Z.odd m)) eqn:Eup.
    + assert (Hs1 : Z.shiftl (m + 1) e = (m + 1) * 2 ^ e)
        by (apply Z.shiftl_mul_pow2; lia).
      rewrite Hs1.
      assert (Hrest : half <= rest).
      { apply orb_prop in Eup as [Eup|Eup].
        - apply Z.ltb_lt in Eup. lia.
        - apply andb_prop in Eup as [E1 _]. apply Z.eqb_eq in E1. lia. }
      destruct (Z.leb_spec (2 ^ 1024) ((m + 1) * 2 ^ e)) as [Hinf|Hfin].
      * split; [intros _|reflexivity].
        destruct (Z_lt_le_dec e 971) as [Hlt|Hge1].
        { specialize (Hle ltac:(lia)). exfalso.
          assert ((m + 1) * (2 * 2 ^ e) <= 2 ^ 53 * 2 ^ 971)
            by (apply Z.mul_le_mono_nonneg; lia).
          nia. }
        destruct (Z.eq_dec e 971) as [E|Hne].
        { destruct (Heq E) as [E1 E2]. rewrite E1 in *. rewrite E2 in *.
          assert (2 ^ 53 <= m + 1) by nia. nia. }
        { specialize (Hge ltac:(lia)).
          assert (2 ^ 52 * (2 * 2 ^ 971) <= m * 2 ^ e)
            by (apply Z.mul_le_mono_nonneg; lia).
          nia. }
      * split; [discriminate|]. intros Hbig. exfalso.
        destruct (Z_lt_le_dec e 971) as [Hlt|Hge1].
        { specialize (Hle ltac:(lia)).
          assert (m * (2 * 2 ^ e) <= 2 ^ 53 * 2 ^ 971)
            by (apply Z.mul_le_mono_nonneg; lia).
          nia. }
        destruct (Z.eq_dec e 971) as [E|Hne].
        { destruct (Heq E) as [E1 E2]. rewrite E1 in *. rewrite E2 in *.
          assert (2 ^ 53 - 1 <= m) by nia. nia. }
        { specialize (Hge ltac:(lia)).
          assert (2 ^ 52 * (2 * 2 ^ 971) <= m * 2 ^ e)
            by (apply Z.mul_le_mono_nonneg; lia).
          nia. }
    + rewrite Hs.
      apply orb_false_elim in Eup as [E1 E2]. apply Z.ltb_ge in E1.
      destruct (Z.leb_spec (2 ^ 1024) (m * 2 ^ e)) as [Hinf|Hfin].
      * split; [intros _|reflexivity].
        destruct (Z_lt_le_dec e 972) as [Hlt|Hge1].
        { exfalso.
          assert (2 ^ e <= 2 ^ 971) by (apply Z.pow_le_mono_r; lia).
          assert (m * 2 ^ e <= (2 ^ 53 - 1) * 2 ^ 971)
            by (apply Z.mul_le_mono_nonneg; lia).
          nia. }
        { specialize (Hge ltac:(lia)).
          assert (2 ^ 52 * (2 * 2 ^ 971) <= m * 2 ^ e)
            by (apply Z.mul_le_mono_nonneg; lia).
          nia. }
      * split; [discriminate|]. intros Hbig. exfalso.
        destruct (Z_lt_le_dec e 971) as [Hlt|Hge1].
        { specialize (Hle ltac:(lia)).
          assert (m * (2 * 2 ^ e) <= 2 ^ 53 * 2 ^ 971)
            by (apply Z.mul_le_mono_nonneg; lia).
          nia. }
        destruct (Z.eq_dec e 971) as [E|Hne].
        { destruct (Heq E) as [E3 E4]. rewrite E3 in *. rewrite E4 in *.
          assert (Hm1 : 2 ^ 53 - 1 <= m) by nia.
          assert (Em : m = 2 ^ 53 - 1) by lia.
          assert (Er : rest = 2 ^ 970) by nia.
          assert (Eo : Z.odd m = true) by (rewrite Em; reflexivity).
          rewrite Er, Eo, Z.eqb_refl in E2. discriminate. }
        { specialize (Hge ltac:(lia)).
          assert (2 ^ 52 * (2 * 2 ^ 971) <= m * 2 ^ e)
            by (apply Z.mul_le_mono_nonneg; lia).
          nia. }
Qed.

Lemma parseInt_exact (d : str) :
  decimal d < 2 ^ 53 -> parseInt d = Finite (decimal d).
Proof. apply to_double_exact. Qed.

Lemma extract_score_nonneg (html : str) (n : Z) :
  json_number (extract_score html) = Some n -> 0 <= n.
Proof.
  unfold extract_score. destruct (scoreMatch html) as [d|] eqn:E; [|discriminate].
  apply scoreMatch_digits in E as [_ Hd]. cbn [json_number].
  destruct (parseInt d) as [z|] eqn:Ez; [|discriminate].
  intros [= <-]. apply (to_double_nonneg (decimal d)); [|exact Ez].
  now apply decimal_nonneg.
Qed.

(** C5, as the code has it by design.  The extraction gives null on a
    text that holds nothing of the form of the marker, and a number on a
    text that holds a marker.  On a text whose first part of that form is
    a marker it gives the number that [parseInt] reads in the digits of
    that marker, which is their decimal value when that is below 2^53; so
    it gives 73 when that marker is the one around 73.  What it gives when
    a text of the form of the marker differs from a marker in the
    character at the dot of [1.2em] is left open. *)
Theorem extract_score_leftmost :
  (forall s : str, ~ contains_form s -> extract_score s = None)
  /\ (forall s : str, contains_marker s -> extract_score s <> None)
  /\ (forall s pre d : str,
        leftmost_marker s pre d -> extract_score s = Some (parseInt d))
  /\ (forall s pre d : str,
        leftmost_marker s pre d -> decimal d < 2 ^ 53 ->
        extract_score s = Some (Finite (decimal d)))
  /\ (forall s pre : str,
        leftmost_marker s pre (lit "73") ->
        extract_score s = Some (Finite 73)).
Proof.
  assert (L : forall s pre d : str,
             leftmost_marker s pre d -> extract_score s = Some (parseInt d)).
  { intros s pre d H. unfold extract_score.
    now rewrite (scoreMatch_leftmost s pre d H). }
  split; [|split; [|split; [|split]]].
  - intros s Hn. unfold extract_score.
    now rewrite (proj2 (scoreMatch_None s) Hn).
  - intros s (pre & d & Hat) E. unfold extract_score in E.
    destruct (scoreMatch s) eqn:Es; [discriminate|].
    apply scoreMatch_None in Es. apply Es.
    exists pre, "."%char, d. now apply marker_at_form.
  - exact L.
  - intros s pre d H Hd. rewrite (L s pre d H). now rewrite parseInt_exact.
  - intros s pre H. now rewrite (L s pre _ H).
Qed.

Lemma extract_score_leftmost_witness :
  extract_score (marker (lit "73")) = Some (Finite 73).
Proof.
  apply (proj2 (proj2 (proj2 (proj2 extract_score_leftmost))) _ []). split.
  - exists []. split; [|split].
    + rewrite app_nil_r. reflexivity.
    + discriminate.
    + reflexivity.
  - intros; simpl; lia.
Defined.

(** C5 as stated fails: a text can contain the marker around 73 after
    another marker, and the extraction gives the integer of the first. *)
Lemma extract_score_earlier_marker :
  ~ (forall s : str,
       (exists pre post, s = pre ++ marker (lit "73") ++ post) ->
       extract_score s = Some (Finite 73)).
Proof.
  intros H.
  specialize (H (marker (lit "5") ++ marker (lit "73") ++ [])).
  assert (E : extract_score (marker (lit "5") ++ marker (lit "73") ++ [])
              = Some (Finite 5))
    by (vm_compute; reflexivity).
  rewrite E in H. clear E.
  assert (C : Some (Finite 5) = Some (Finite 73)); [|discriminate C].
  apply H. now exists (marker (lit "5")), [].
Qed.

(** ** Runs of the orchestrator *)

Lemma lookup_store_update (k : Z) (p : Patch) (s : Store) :
  rows (store_update k p s) !! k = apply_patch p <$> rows s !! k.
Proof. unfold store_update; simpl. apply lookup_alter_eq. Qed.

Lemma lookup_store_update_ne (k k' : Z) (p : Patch) (s : Store) :
  k <> k' -> rows (store_update k p s) !! k' = rows s !! k'.
Proof. intros H. unfold store_update; simpl. now apply lookup_alter_ne. Qed.

Lemma falsy_id (o : option Z) :
  falsy (JNum <$> o) = false -> exists k, o = Some k /\ k <> 0.
Proof.
  destruct o as [k|]; [|discriminate]. destruct k; [discriminate| |];
    intros _; eexists; (split; [reflexivity|discriminate]).
Qed.

Ltac fails_after calls :=
  rewrite <- ?app_assoc;
  match goal with
  | |- analyze_outcome ?req ?w _ _ =>
      apply (run_failed req w _ _ calls); auto; repeat constructor
  end.

Lemma analyze_content_outcome (env : AnalyzeEnv) (req : AnalyzeRequest) (w : World) :
  analyze_outcome req w (fst (analyze_content env req w))
    (snd (analyze_content env req w)).
Proof.
  unfold analyze_content.
  destruct (analyze_method req) eqn:Em; [now constructor| |].
  all: destruct (analyze_body req) as [o|] eqn:Eb; [|constructor].
  all: destruct (falsy (JNum <$> o)) eqn:Ef; [constructor|].
  all: apply falsy_id in Ef as (k & -> & Hk).
  all: change (default 0 (Some k)) with k.
  all: unfold run_analysis, update_select_single, update, bind; cbn [store log].
  all: rewrite lookup_store_update.
  all: destruct (rows (store w) !! k) as [r|] eqn:Er; simpl.
  all: try (fails_after (@nil Event); fail).
  all: destruct (brave env) as [|bst [bd|]]; simpl.
  all: try (fails_after [EvSearch (title r)]; fail).
  all: destruct (searchContext bd) as [e|ctx]; simpl.
  all: try (fails_after [EvSearch (title r)]; fail).
  all: pose (p := {| prompt_title := title r; prompt_search := ctx |}).
  all: destruct (openai env) as [|st [cc|]]; simpl.
  all: try (fails_after [EvSearch (title r); EvCompletion p]; fail).
  all: destruct (ok st); simpl.
  all: try (fails_after [EvSearch (title r); EvCompletion p]; fail).
  all: try destruct (choice_content cc) as [e|c]; simpl.
  all: try (fails_after [EvSearch (title r); EvCompletion p]; fail).
  all: destruct (analysis_text c) as [e|text]; simpl.
  all: try (fails_after [EvSearch (title r); EvCompletion p]; fail).
  all: rewrite <- ?app_assoc; now apply (run_completed req w k r).
Qed.

(** ** Every event comes from one of the writes of the program *)

Lemma calls_written (calls : list Event) :
  Forall is_call calls -> Forall written calls.
Proof.
  induction 1 as [|ev calls H _ IH]; constructor; [|assumption].
  destruct ev; try contradiction; constructor.
Qed.

Lemma analyze_content_written (env : AnalyzeEnv) (req : AnalyzeRequest) (w : World) :
  exists evs,
    log (snd (analyze_content env req w)) = log w ++ evs
    /\ store (snd (analyze_content env req w)) = replay evs (store w)
    /\ Forall written evs.
Proof.
  destruct (analyze_content_outcome env req w) as [| |k e calls _ _ Hc|k r ctx html].
  - exists []. rewrite app_nil_r. repeat split; constructor.
  - exists []. rewrite app_nil_r. repeat split; constructor.
  - eexists. split; [reflexivity|]. cbn [store]. split.
    + unfold replay. cbn [fold_left apply_event].
      rewrite fold_left_app. cbn [fold_left apply_event].
      f_equal. clear -Hc. generalize (store_update k (patch_status analyzing) (store w)).
      induction Hc as [|ev calls H _ IH]; intros s; [reflexivity|].
      destruct ev; try contradiction; apply IH.
    + constructor; [constructor|].
      apply Forall_app; split; [now apply calls_written|].
      repeat constructor.
  - eexists. split; [reflexivity|]. split; [reflexivity|].
    repeat constructor.
Qed.

Lemma intake_written (a : AuthResult) (t : str) (w : World) :
  exists evs,
    log (snd (intake a t w)) = log w ++ evs
    /\ store (snd (intake a t w)) = replay evs (store w)
    /\ Forall written evs.
Proof.
  unfold intake, bind, emit, insert_select_single, store_insert.
  destruct a as [| |uid]; simpl.
  - exists [EvGetUser]. repeat constructor.
  - exists [EvGetUser]. repeat constructor.
  - rewrite <- !app_assoc. eexists. split; [reflexivity|].
    split; [reflexivity|]. repeat constructor.
Qed.

Lemma submit_idea_written (env : SubmitEnv) (req : SubmitRequest) (w : World) :
  exists evs,
    log (snd (submit_idea env req w)) = log w ++ evs
    /\ store (snd (submit_idea env req w)) = replay evs (store w)
    /\ Forall written evs.
Proof.
  assert (Hnil : exists evs, log w = log w ++ evs
             /\ store w = replay evs (store w) /\ Forall written evs).
  { exists []. rewrite app_nil_r. repeat split; constructor. }
  unfold submit_idea.
  destruct (submit_method req); [assumption| |].
  all: destruct (submit_body req) as [t|]; [|assumption].
  all: destruct (falsy (JStr <$> t)); [assumption|].
  all: destruct (intake_written (auth env) (default [] t) w) as (evs & Hl & Hs & Hw).
  all: destruct (intake (auth env) (default [] t) w) as [[e|newIdea] w1];
    cbn [fst snd] in *; [now exists evs|].
  all: unfold settle; destruct (dispatch env) as [aenv|]; [|now exists evs].
  all: match goal with
       | |- context [analyze_content ?e ?r ?w'] =>
           destruct (analyze_content_written e r w') as (evs' & Hl' & Hs' & Hw')
       end.
  all: exists (evs ++ evs'); rewrite Hl', Hs', Hl, Hs, app_assoc.
  all: split; [reflexivity|]; split;
    [unfold replay; now rewrite fold_left_app|now apply Forall_app].
Qed.

Lemma events_written (a : Action) (s : Store) :
  Forall written (events a s)
  /\ store (snd (match a with
                 | Submit env req => submit_idea env req (start s)
                 | Analyze env req => analyze_content env req (start s)
                 | ChangeProjectStatus k p =>
                     let '(_, w) := handleStatusChange k p (start s) in
                     ({| status := 200; body := BodyOk |}, w)
                 end)) = replay (events a s) s.
Proof.
  destruct a as [env req|env req|k p]; unfold events.
  - destruct (submit_idea_written env req (start s)) as (evs & -> & -> & H).
    now split.
  - destruct (analyze_content_written env req (start s)) as (evs & -> & -> & H).
    now split.
  - split; [repeat constructor|reflexivity].
Qed.

(** ** Properties of rows kept by every write *)

Section RowInvariant.

Variable row_ok : Idea -> Prop.

Hypothesis ok_status :
  forall r a, a <> completed -> row_ok r -> row_ok (apply_patch (patch_status a) r).
Hypothesis ok_completed :
  forall r html, row_ok r ->
    row_ok (apply_patch (patch_completed (extract_score html) html) r).
Hypothesis ok_project :
  forall r p, row_ok r -> row_ok (apply_patch (patch_project p) r).
Hypothesis ok_new :
  forall k t u,
    row_ok {| id := k; title := t; user_id := u; analysis_status := analyzing;
              project_status := New; score := None; analysis := None |}.

Local Abbreviation store_ok := (all_rows row_ok).

Lemma store_update_ok (k : Z) (p : Patch) (s : Store) :
  (forall r, row_ok r -> row_ok (apply_patch p r)) ->
  store_ok s -> store_ok (store_update k p s).
Proof.
  intros Hp Hs k' r'. destruct (decide (k = k')) as [<-|Hne].
  - rewrite lookup_store_update.
    destruct (rows s !! k) as [r|] eqn:Er; [|discriminate].
    intros [= <-]. apply Hp. now apply (Hs k).
  - rewrite lookup_store_update_ne by assumption. apply Hs.
Qed.

Lemma apply_event_ok (ev : Event) (s : Store) :
  written ev -> store_ok s -> store_ok (apply_event s ev).
Proof.
  intros Hev Hs. destruct Hev; cbn [apply_event]; try assumption.
  - apply store_update_ok; [|assumption]. intros r. now apply ok_status.
  - apply store_update_ok; [|assumption]. intros r. now apply ok_status.
  - apply store_update_ok; [|assumption]. intros r. apply ok_completed.
  - apply store_update_ok; [|assumption]. intros r. apply ok_project.
  - intros k' r'. cbn [rows id]. destruct (decide (k = k')) as [<-|Hne].
    + rewrite lookup_insert_eq. intros [= <-]. apply ok_new.
    + rewrite lookup_insert_ne by assumption. apply Hs.
Qed.

Lemma visited_ok (evs : list Event) (s s' : Store) :
  Forall written evs -> store_ok s -> In s' (visited evs s) -> store_ok s'.
Proof.
  intros Hw. revert s. induction Hw as [|ev evs Hev _ IH]; intros s Hs.
  - intros [<-|[]]. assumption.
  - intros [<-|Hin]; [assumption|].
    apply (IH (apply_event s ev)); [|assumption].
    now apply apply_event_ok.
Qed.

Lemma reachable_ok (s : Store) : reachable s -> store_ok s.
Proof.
  induction 1 as [|s a s' _ IH Hin].
  - intros k r. unfold empty_store; cbn [rows].
    rewrite lookup_empty. discriminate.
  - apply (visited_ok (events a s) s); [|assumption|assumption].
    apply events_written.
Qed.

End RowInvariant.

(** ** Invariants of the table *)

Lemma replay_visited (evs : list Event) (s : Store) :
  In (replay evs s) (visited evs s).
Proof.
  revert s. induction evs as [|ev evs IH]; intros s; [now left|].
  right. apply IH.
Qed.

Lemma reachable_replay (a : Action) (s : Store) :
  reachable s -> reachable (replay (events a s) s).
Proof. intros H. apply (reach_action s a); [assumption|apply replay_visited]. Qed.

(** C3: in every table the program goes through, a row whose
    analysis_status is completed has an analysis artifact. *)
Theorem completed_has_analysis (s : Store) (k : Z) (r : Idea) :
  reachable s -> rows s !! k = Some r ->
  analysis_status r = completed -> analysis r <> None.
Proof.
  intros Hs Hr. revert k r Hr.
  apply (reachable_ok (fun r => analysis_status r = completed -> analysis r <> None));
    try assumption.
  - intros r a Ha _ E. cbn in E. congruence.
  - intros r html _ _. discriminate.
  - intros r p H E. apply H, E.
  - intros k t u E. discriminate.
Qed.

Lemma completed_has_analysis_witness :
  rows Sample.table_after_submit1 !! 1 = Some Sample.idea_250
  /\ analysis_status Sample.idea_250 = completed
  /\ analysis Sample.idea_250 <> None.
Proof.
  split; [vm_compute; reflexivity|]. split; [reflexivity|].
  apply (completed_has_analysis Sample.table_after_submit1 1).
  - apply reachable_replay, reach_empty.
  - vm_compute; reflexivity.
  - reflexivity.
Defined.

Lemma no_score_in_calls (calls : list Event) (k : Z) (p : Patch) :
  Forall is_call calls -> ~ In (EvUpdate k p) calls.
Proof.
  intros H Hin. induction H as [|ev calls Hev _ IH]; [contradiction|].
  destruct Hin as [->|Hin]; [contradiction|auto].
Qed.

(** C2, as the code has it: a score that is not null is the number read
    in the digits of a match, so a non-negative integer, with no upper
    bound; and the score is written only by the write that records
    completed, in a run that answers success: a run that fails leaves the
    score of every row as it was. *)
Theorem score_nonnegative_written_on_completion :
  (forall s k r n,
      reachable s -> rows s !! k = Some r -> score r = Some n -> 0 <= n)
  /\ (forall env req s k p,
        In (EvUpdate k p) (log (snd (analyze_content env req (start s)))) ->
        set_score p <> None ->
        status (fst (analyze_content env req (start s))) = 200
        /\ set_analysis_status p = Some completed)
  /\ (forall env req s k,
        status (fst (analyze_content env req (start s))) <> 200 ->
        score <$> rows (store (snd (analyze_content env req (start s)))) !! k
        = score <$> rows s !! k).
Proof.
  split; [|split].
  - intros s k r n Hs Hr. revert n.
    apply (reachable_ok (fun r => forall n, score r = Some n -> 0 <= n)) with (s := s) (k := k);
      try assumption.
    + intros r0 a _ H. exact H.
    + intros r0 html _ n. cbn. apply extract_score_nonneg.
    + intros r0 p H. exact H.
    + intros k0 t u n. discriminate.
  - intros env req s k p.
    destruct (analyze_content_outcome env req (start s))
      as [| |k0 e calls _ _ Hc|k0 r ctx html]; cbn [log start fst snd status].
    + intros [].
    + intros [].
    + intros [E|Hin]; [injection E as <- <-; now intros []|].
      apply in_app_or in Hin as [Hin|[E|[]]].
      * now apply no_score_in_calls in Hin.
      * injection E as <- <-. now intros [].
    + intros [E|[E|[E|[E|[]]]]]; try discriminate.
      * injection E as <- <-. now intros [].
      * injection E as <- <-. intros _. now split.
  - intros env req s k.
    destruct (analyze_content_outcome env req (start s))
      as [| |k0 e calls _ _ Hc|k0 r ctx html]; cbn [log start fst snd status store].
    + reflexivity.
    + reflexivity.
    + intros _. destruct (decide (k0 = k)) as [<-|Hne].
      * rewrite !lookup_store_update. now destruct (rows s !! k0).
      * now rewrite !lookup_store_update_ne by assumption.
    + intros Hst. now destruct Hst.
Qed.

Lemma score_nonnegative_written_on_completion_witness :
  rows Sample.table_after_submit1 !! 1 = Some Sample.idea_250
  /\ score Sample.idea_250 = Some 250 /\ 0 <= 250.
Proof.
  split; [vm_compute; reflexivity|]. split; [reflexivity|].
  apply (proj1 score_nonnegative_written_on_completion
           Sample.table_after_submit1 1 Sample.idea_250 250).
  - apply reachable_replay, reach_empty.
  - vm_compute; reflexivity.
  - reflexivity.
Defined.

(** C2 as stated fails: the orchestrator stores whatever integer the
    marker holds; with 250/100 in the completion text the row of a table
    reached by one submission has the score 250. *)
Lemma score_above_100 :
  ~ (forall s k r n,
       reachable s -> rows s !! k = Some r -> score r = Some n ->
       0 <= n <= 100).
Proof.
  intros H.
  assert (R : reachable Sample.table_after_submit1)
    by apply reachable_replay, reach_empty.
  assert (E : rows Sample.table_after_submit1 !! 1 = Some Sample.idea_250)
    by (vm_compute; reflexivity).
  specialize (H _ _ _ 250 R E eq_refl). lia.
Qed.

(** ** The status of a row over the runs of the orchestrator *)

Lemma status_writes_calls (calls : list Event) :
  Forall is_call calls -> status_writes calls = [].
Proof.
  induction 1 as [|ev calls Hev _ IH]; [reflexivity|].
  destruct ev; try contradiction; exact IH.
Qed.

Lemma status_writes_app (evs evs' : list Event) :
  status_writes (evs ++ evs') = status_writes evs ++ status_writes evs'.
Proof. apply omap_app. Qed.

Lemma status_of_update (k k' : Z) (p : Patch) (s : Store) :
  status_of (store_update k p s) k' =
  if decide (k = k')
  then (fun a => default a (set_analysis_status p)) <$> status_of s k'
  else status_of s k'.
Proof.
  unfold status_of. destruct (decide (k = k')) as [<-|Hne].
  - rewrite lookup_store_update. now destruct (rows s !! k).
  - now rewrite lookup_store_update_ne.
Qed.

Lemma terminal_kept_by_run (env : AnalyzeEnv) (req : AnalyzeRequest)
    (s : Store) (k : Z) (a : AnalysisStatus) :
  status_of s k = Some a -> terminal a = true ->
  exists a', status_of (store (snd (analyze_content env req (start s)))) k = Some a'
             /\ terminal a' = true.
Proof.
  intros Hk Ha.
  destruct (analyze_content_outcome env req (start s))
    as [| |k0 e calls _ _ Hc|k0 r ctx html]; cbn [store start].
  - eauto.
  - eauto.
  - rewrite !status_of_update, Hk.
    destruct (decide (k0 = k)); cbn; eauto.
  - rewrite !status_of_update, Hk.
    destruct (decide (k0 = k)); cbn; eauto.
Qed.

(** C4, as the code has it: one run writes the status forward only, first
    analyzing and then one of completed and failed, or it writes nothing;
    and a row that is in a terminal state before a sequence of runs is in
    a terminal state after it.  The run does not read the status it
    overwrites. *)
Theorem status_forward_within_run :
  (forall env req s,
      let evs := log (snd (analyze_content env req (start s))) in
      status_writes evs = []
      \/ status_writes evs = [analyzing; completed]
      \/ status_writes evs = [analyzing; failed])
  /\ (forall runs s k a,
        status_of s k = Some a -> terminal a = true ->
        exists a', status_of (analyze_all runs s) k = Some a'
                   /\ terminal a' = true).
Proof.
  split.
  - intros env req s.
    destruct (analyze_content_outcome env req (start s))
      as [| |k0 e calls _ _ Hc|k0 r ctx html]; cbn [log start snd]; auto.
    right; right.
    change (EvUpdate k0 (patch_status analyzing)
              :: calls ++ [EvUpdate k0 (patch_status failed)])
      with ([EvUpdate k0 (patch_status analyzing)]
              ++ calls ++ [EvUpdate k0 (patch_status failed)]).
    now rewrite !status_writes_app, (status_writes_calls calls Hc).
  - intros runs. induction runs as [|[env req] runs IH]; intros s k a Hk Ha.
    + eauto.
    + destruct (terminal_kept_by_run env req s k a Hk Ha) as (a' & Hk' & Ha').
      apply (IH _ k a' Hk' Ha').
Qed.

Lemma status_forward_within_run_witness :
  exists a', status_of (analyze_all [(Sample.search_down, Sample.trigger1)] Sample.table1) 1
             = Some a' /\ terminal a' = true.
Proof.
  apply (proj2 status_forward_within_run
           [(Sample.search_down, Sample.trigger1)] Sample.table1 1 completed).
  - vm_compute; reflexivity.
  - reflexivity.
Defined.

(** C4 as stated fails: a repeat trigger for an idea that is completed
    sets its row to analyzing, and here the run ends with failed. *)
Lemma repeat_trigger_reenters_analyzing :
  status_of Sample.table1 1 = Some completed
  /\ (exists s',
        In s' (visited (events (Analyze Sample.search_down Sample.trigger1) Sample.table1)
                 Sample.table1)
        /\ status_of s' 1 = Some analyzing)
  /\ status_of (store (snd (analyze_content Sample.search_down Sample.trigger1
                              (start Sample.table1)))) 1 = Some failed.
Proof.
  split; [vm_compute; reflexivity|]. split; [|vm_compute; reflexivity].
  exists (store_update 1 (patch_status analyzing) Sample.table1).
  split; [|vm_compute; reflexivity].
  right. left. reflexivity.
Qed.

(** ** The search call *)

(** C1 at a failing input: the search provider answers 429 with an error
    body; the status is not looked at, the search context is empty, the
    completion call is issued and the row ends completed. *)
Theorem search_status_not_checked :
  let run := analyze_content Sample.search_rate_limited Sample.trigger2
               (start Sample.table2) in
  ok 429 = false
  /\ In (EvCompletion {| prompt_title := lit "Raising a puppy"; prompt_search := [] |})
       (log (snd run))
  /\ status (fst run) = 200
  /\ status_of (store (snd run)) 2 = Some completed.
Proof.
  split; [reflexivity|]. split; [|split; vm_compute; reflexivity].
  right; right; left. reflexivity.
Qed.

(** ** Runs that reach a given point *)

Lemma rows_two_updates (k : Z) (p q : Patch) (s : Store) (r : Idea) :
  rows s !! k = Some r ->
  rows (store_update k q (store_update k p s))
  = <[k := apply_patch q (apply_patch p r)]> (rows s).
Proof.
  intros Hr. apply map_eq. intros j. destruct (decide (k = j)) as [<-|Hne].
  - now rewrite !lookup_store_update, Hr, lookup_insert_eq.
  - now rewrite !lookup_store_update_ne, lookup_insert_ne.
Qed.

Lemma failed_after_analyzing (r : Idea) :
  apply_patch (patch_status failed) (apply_patch (patch_status analyzing) r)
  = with_status failed r.
Proof. reflexivity. Qed.

Ltac in_log H :=
  simpl in H;
  repeat match type of H with
         | _ \/ _ => destruct H as [H|H]; [try discriminate H|]
         end;
  try contradiction.

(** Unfolds a run on an existing row up to the call of the search
    provider. *)
Ltac start_run Hm Hb Hk Hr :=
  unfold analyze_content;
  rewrite Hb;
  match goal with
  | |- context [falsy (JNum <$> Some ?k)] =>
      replace (falsy (JNum <$> Some k)) with false
        by (destruct k; [now destruct Hk|reflexivity|reflexivity]);
      change (default 0 (Some k)) with k
  end;
  match goal with
  | |- context [analyze_method ?req] =>
      destruct (analyze_method req); [now destruct Hm| |]
  end;
  unfold run_analysis, update_select_single, update, bind, start;
  cbn [store log]; rewrite lookup_store_update, Hr; simpl.

(** The search call that does not complete is fatal: no completion call
    is issued and the row ends failed. *)
Lemma search_unreachable_is_fatal (env : AnalyzeEnv) (req : AnalyzeRequest)
    (s : Store) (k : Z) (r : Idea) :
  analyze_method req <> OPTIONS -> analyze_body req = Some (Some k) -> k <> 0 ->
  rows s !! k = Some r ->
  brave env = NetworkFailure ->
  analyze_content env req (start s)
  = ({| status := 500; body := BodyError FetchFailed |},
     {| store := store_update k (patch_status failed)
                   (store_update k (patch_status analyzing) s);
        log := [EvUpdate k (patch_status analyzing); EvSearch (title r);
                EvUpdate k (patch_status failed)] |}).
Proof.
  intros Hm Hb Hk Hr Hbrave. start_run Hm Hb Hk Hr.
  all: now rewrite Hbrave.
Qed.

(** C6: when the completion provider answers with a status that is not a
    success, the run answers 500, the row is the row it was with failed as
    its analysis_status, every other row is as it was, and no write of the
    run carries a score or an analysis. *)
Theorem completion_failure_touches_status_only (env : AnalyzeEnv)
    (req : AnalyzeRequest) (s : Store) (k : Z) (r : Idea) (st : Z)
    (b : option Json) :
  analyze_method req <> OPTIONS -> analyze_body req = Some (Some k) -> k <> 0 ->
  rows s !! k = Some r ->
  openai env = Responded st b -> ok st = false ->
  let run := analyze_content env req (start s) in
  status (fst run) = 500
  /\ rows (store (snd run)) = <[k := with_status failed r]> (rows s)
  /\ (forall k' p, In (EvUpdate k' p) (log (snd run)) ->
        k' = k /\ set_score p = None /\ set_analysis p = None
        /\ set_project_status p = None)
  /\ (forall bst bd ctx,
        brave env = Responded bst (Some bd) -> searchContext bd = inr ctx ->
        body (fst run) = BodyError (CompletionStatus st)
        /\ In (EvCompletion {| prompt_title := title r; prompt_search := ctx |})
             (log (snd run))).
Proof.
  intros Hm Hb Hk Hr Ho Hst run. subst run.
  rewrite <- failed_after_analyzing, <- (rows_two_updates k _ _ s r Hr).
  start_run Hm Hb Hk Hr.
  all: destruct (brave env) as [|bst [bd|]]; simpl.
  all: try destruct (searchContext bd) as [e|ctx] eqn:Esc; simpl.
  all: rewrite ?Ho; simpl; rewrite ?Hst; simpl.
  all: split; [reflexivity|]; split; [reflexivity|]; split.
  all: try (intros k' p Hin; in_log Hin; injection Hin as Ek Ep; subst k' p; now repeat split).
  all: intros bst' bd' ctx' Hbrave Hctx; try discriminate Hbrave.
  all: injection Hbrave as <- <-; try congruence.
  all: assert (ctx' = ctx) as -> by congruence.
  all: split; [reflexivity|right; right; left; reflexivity].
Qed.

Lemma completion_failure_touches_status_only_witness :
  status (fst (analyze_content Sample.completion_down Sample.trigger2
                 (start Sample.table2))) = 500
  /\ rows (store (snd (analyze_content Sample.completion_down Sample.trigger2
                         (start Sample.table2))))
     = <[2 := with_status failed Sample.idea2]> (rows Sample.table2).
Proof.
  assert (Hm : analyze_method Sample.trigger2 <> OPTIONS) by discriminate.
  assert (Hk : 2 <> 0) by lia.
  assert (Hr : rows Sample.table2 !! 2 = Some Sample.idea2)
    by (vm_compute; reflexivity).
  assert (Hst : ok 503 = false) by reflexivity.
  pose proof (completion_failure_touches_status_only
                Sample.completion_down Sample.trigger2 Sample.table2 2
                Sample.idea2 503 None Hm eq_refl Hk Hr eq_refl Hst) as H.
  split; [apply H|apply H].
Defined.

Lemma placeholder_clean : clean_fences placeholder_report = placeholder_report.
Proof. vm_compute; reflexivity. Qed.

Lemma placeholder_no_score : extract_score placeholder_report = None.
Proof. vm_compute; reflexivity. Qed.

Lemma completed_after_analyzing (r : Idea) (sc : option Number) (html : str) :
  apply_patch (patch_completed sc html) (apply_patch (patch_status analyzing) r)
  = {| id := id r; title := title r; user_id := user_id r;
       analysis_status := completed; project_status := project_status r;
       score := json_number sc; analysis := Some html |}.
Proof. reflexivity. Qed.

(** C10: when the completion provider answers with success and the
    content of the first choice is null or the empty string, the run
    answers success and the row is recorded completed with a null score
    and the placeholder document as its analysis. *)
Theorem empty_content_completes_with_placeholder (env : AnalyzeEnv)
    (req : AnalyzeRequest) (s : Store) (k : Z) (r : Idea)
    (bst st : Z) (bd cc : Json) (ctx : list SearchResult) (c : jsval) :
  analyze_method req <> OPTIONS -> analyze_body req = Some (Some k) -> k <> 0 ->
  rows s !! k = Some r ->
  brave env = Responded bst (Some bd) -> searchContext bd = inr ctx ->
  openai env = Responded st (Some cc) -> ok st = true ->
  choice_content cc = inr c -> c = Some JNull \/ c = Some (JStr []) ->
  let run := analyze_content env req (start s) in
  fst run = {| status := 200; body := BodySuccess k |}
  /\ rows (store (snd run))
     = <[k := {| id := id r; title := title r; user_id := user_id r;
                 analysis_status := completed;
                 project_status := project_status r;
                 score := None;
                 analysis := Some placeholder_report |}]> (rows s).
Proof.
  intros Hm Hb Hk Hr Hbrave Hctx Ho Hst Hcc Hc run. subst run.
  change (@None Z) with (json_number None).
  rewrite <- (completed_after_analyzing r None placeholder_report).
  rewrite <- (rows_two_updates k _ _ s r Hr).
  assert (Ht : analysis_text c = inr placeholder_report)
    by (destruct Hc as [-> | ->]; reflexivity).
  start_run Hm Hb Hk Hr.
  all: rewrite Hbrave; simpl; rewrite Hctx; simpl.
  all: rewrite Ho; simpl; rewrite Hst; simpl.
  all: rewrite Hcc; simpl; rewrite Ht; simpl.
  all: rewrite placeholder_clean, placeholder_no_score.
  all: split; reflexivity.
Qed.

Lemma empty_content_completes_with_placeholder_witness :
  fst (analyze_content Sample.no_content Sample.trigger2 (start Sample.table2))
  = {| status := 200; body := BodySuccess 2 |}.
Proof.
  assert (Hm : analyze_method Sample.trigger2 <> OPTIONS) by discriminate.
  assert (Hk : 2 <> 0) by lia.
  assert (Hr : rows Sample.table2 !! 2 = Some Sample.idea2)
    by (vm_compute; reflexivity).
  assert (Hctx : searchContext Sample.search_body
                 = inr [{| sr_title := Some (JStr (lit "t"));
                           sr_url := Some (JStr (lit "u"));
                           sr_snippet := Some (JStr (lit "d")) |}])
    by (vm_compute; reflexivity).
  assert (Hcc : choice_content (Sample.chat JNull) = inr (Some JNull))
    by (vm_compute; reflexivity).
  apply (empty_content_completes_with_placeholder
           Sample.no_content Sample.trigger2 Sample.table2 2 Sample.idea2
           200 200 _ _ _ _ Hm eq_refl Hk Hr eq_refl Hctx eq_refl eq_refl Hcc
           (or_introl eq_refl)).
Defined.

(** ** The submission intake *)

(** C7: a submission whose title is missing or empty is answered with the
    status 400 and the error of the missing field, and the world is left
    as it was: nothing is written and no call is made. *)
Theorem empty_title_rejected_before_any_write (env : SubmitEnv)
    (req : SubmitRequest) (w : World) :
  submit_method req <> OPTIONS ->
  submit_body req = Some None \/ submit_body req = Some (Some []) ->
  submit_idea env req w
  = ({| status := 400; body := BodyError (MissingField (lit "title")) |}, w)
  /\ 400 <= status (fst (submit_idea env req w)) < 500.
Proof.
  intros Hm Hb. unfold submit_idea.
  destruct (submit_method req); [now destruct Hm| |].
  all: destruct Hb as [-> | ->]; cbn; (split; [reflexivity|lia]).
Qed.

Lemma empty_title_rejected_before_any_write_witness :
  submit_idea {| auth := User (lit "u1"); dispatch := DispatchFails |}
    {| submit_method := POST; submit_body := Some (Some []) |}
    (start empty_store)
  = ({| status := 400; body := BodyError (MissingField (lit "title")) |},
     start empty_store).
Proof.
  apply (empty_title_rejected_before_any_write
           {| auth := User (lit "u1"); dispatch := DispatchFails |}
           {| submit_method := POST; submit_body := Some (Some []) |}).
  - discriminate.
  - right. reflexivity.
Defined.

(** C8: a submission with a title by an authenticated user inserts a row
    with analysis_status analyzing and project_status New, invokes the
    orchestrator for its identifier, and answers 201 with the row as it
    was inserted, whatever becomes of the invocation; when the invocation
    does not start the row stays as inserted. *)
Theorem submission_creates_analyzing_row (req : SubmitRequest) (w : World)
    (t uid : str) (d : Dispatch) :
  submit_method req <> OPTIONS ->
  submit_body req = Some (Some t) -> t <> [] ->
  let env := {| auth := User uid; dispatch := d |} in
  let newIdea := {| id := next_id (store w); title := t; user_id := uid;
                    analysis_status := analyzing; project_status := New;
                    score := None; analysis := None |} in
  let inserted := {| store := {| rows := <[next_id (store w) := newIdea]> (rows (store w));
                                 next_id := next_id (store w) + 1 |};
                     log := log w ++ [EvGetUser; EvInsert newIdea;
                                      EvInvoke (next_id (store w))] |} in
  intake (User uid) t w = (inr newIdea, inserted)
  /\ fst (submit_idea env req w) = {| status := 201; body := BodyIdea newIdea |}
  /\ snd (submit_idea env req w) = settle d (next_id (store w)) inserted
  /\ (d = DispatchFails ->
      rows (store (snd (submit_idea env req w))) !! next_id (store w) = Some newIdea).
Proof.
  intros Hm Hb Ht env newIdea inserted.
  assert (Hi : intake (User uid) t w = (inr newIdea, inserted)).
  { unfold intake, bind, emit, insert_select_single, store_insert; simpl.
    subst inserted. now rewrite <- !app_assoc. }
  split; [exact Hi|].
  unfold submit_idea. rewrite Hb.
  replace (falsy (JStr <$> Some t)) with false by (now destruct t).
  change (default [] (Some t)) with t. cbn [auth env dispatch].
  destruct (submit_method req); [now destruct Hm| |].
  all: rewrite Hi; cbn [fst snd id newIdea].
  all: split; [reflexivity|]; split; [reflexivity|].
  all: intros ->; cbn [settle store rows inserted].
  all: apply lookup_insert_eq.
Qed.

Lemma submission_creates_analyzing_row_witness :
  fst (submit_idea {| auth := User (lit "u1"); dispatch := DispatchFails |}
         {| submit_method := POST; submit_body := Some (Some (lit "Idea")) |}
         (start empty_store))
  = {| status := 201;
       body := BodyIdea {| id := 1; title := lit "Idea"; user_id := lit "u1";
                           analysis_status := analyzing; project_status := New;
                           score := None; analysis := None |} |}.
Proof.
  apply (submission_creates_analyzing_row
           {| submit_method := POST; submit_body := Some (Some (lit "Idea")) |}
           (start empty_store) (lit "Idea") (lit "u1") DispatchFails).
  - discriminate.
  - reflexivity.
  - discriminate.
Defined.

(** ** The scenarios of the specification, run on the model *)

Example search_context_keeps_five :
  bind_exn (searchContext Sample.search_body7) (fun ctx => inr (length ctx))
  = inr 5%nat
  /\ searchContext Sample.search_error_body = inr [].
Proof. split; vm_compute; reflexivity. Qed.

Example scenario_completed :
  rows (replay (events (Sample.submit_with Sample.scenario_ok) empty_store) empty_store) !! 1
  = Some {| id := 1; title := lit "Blockchain for B2B marketing";
            user_id := lit "u1"; analysis_status := completed;
            project_status := New; score := Some 82;
            analysis := Some Sample.report_82 |}.
Proof. vm_compute; reflexivity. Qed.

Example scenario_search_down :
  rows (replay (events (Sample.submit_with Sample.search_down) empty_store) empty_store) !! 1
  = Some {| id := 1; title := lit "Blockchain for B2B marketing";
            user_id := lit "u1"; analysis_status := failed;
            project_status := New; score := None; analysis := None |}.
Proof. vm_compute; reflexivity. Qed.

(** ** The pattern and the numbers, run on the model *)

(** The dot of [1.2em] in the pattern takes any character but a line
    terminator. *)
Example dot_takes_any_character :
  extract_score (marker_form "x"%char (lit "73")) = Some (Finite 73)
  /\ extract_score (marker_form "9"%char (lit "73")) = Some (Finite 73)
  /\ extract_score (marker_form newline (lit "73")) = None
  /\ extract_score (marker_form (ascii_of_nat 13) (lit "73")) = None.
Proof. repeat split; vm_compute; reflexivity. Qed.

(** The number of a run of digits is a double: from 2^53 on it is
    rounded, and a run of 310 digits gives [Infinity], which the update
    carries as null. *)
Example parseInt_is_a_double :
  parseInt (lit "0073") = Finite 73
  /\ parseInt (lit "9007199254740992") = Finite 9007199254740992
  /\ parseInt (lit "9007199254740993") = Finite 9007199254740992
  /\ parseInt (lit "9007199254740995") = Finite 9007199254740996
  /\ parseInt (lit "100000000000000000000000") = Finite 99999999999999991611392
  /\ extract_score (marker (repeat "9"%char 310)) = Some Infinity
  /\ json_number (extract_score (marker (repeat "9"%char 310))) = None.
Proof. repeat split; vm_compute; reflexivity. Qed.

(** * Further properties of the two edge functions *)

(** ** Requests turned down before the row is marked *)

(** X1: a trigger whose body is not JSON, has no idea_id, or has the
    idea_id 0 is answered 500 and nothing is done: 0 is falsy, so the row
    with identifier 0 can not be analysed. *)
Theorem trigger_without_identifier_is_inert (env : AnalyzeEnv)
    (req : AnalyzeRequest) (w : World) :
  analyze_method req <> OPTIONS ->
  analyze_body req = None \/ analyze_body req = Some None
    \/ analyze_body req = Some (Some 0) ->
  status (fst (analyze_content env req w)) = 500
  /\ snd (analyze_content env req w) = w.
Proof.
  intros Hm Hb. unfold analyze_content.
  destruct (analyze_method req); [now destruct Hm| |].
  all: destruct Hb as [-> |[-> | ->]]; cbn; now split.
Qed.

Lemma trigger_without_identifier_is_inert_witness :
  snd (analyze_content Sample.scenario_ok
         {| analyze_method := POST; analyze_body := Some (Some 0) |}
         (start Sample.table2)) = start Sample.table2.
Proof.
  apply (trigger_without_identifier_is_inert Sample.scenario_ok
           {| analyze_method := POST; analyze_body := Some (Some 0) |}).
  - discriminate.
  - right; right; reflexivity.
Defined.

Lemma store_update_missing (k : Z) (p : Patch) (s : Store) :
  rows s !! k = None -> store_update k p s = s.
Proof.
  intros H. destruct s as [m n]. unfold store_update; cbn in *. f_equal.
  apply map_eq. intros j. destruct (decide (k = j)) as [<-|Hne].
  - now rewrite lookup_alter_eq, H.
  - now rewrite lookup_alter_ne.
Qed.

(** X2: a trigger for an identifier that has no row is answered 500 with
    the error of the store; the table is as it was and no provider is
    called: the only events are the two updates that select no row. *)
Theorem unknown_idea_calls_no_provider (env : AnalyzeEnv)
    (req : AnalyzeRequest) (s : Store) (k : Z) :
  analyze_method req <> OPTIONS -> analyze_body req = Some (Some k) -> k <> 0 ->
  rows s !! k = None ->
  analyze_content env req (start s)
  = ({| status := 500; body := BodyError StoreError |},
     {| store := s;
        log := [EvUpdate k (patch_status analyzing);
                EvUpdate k (patch_status failed)] |}).
Proof.
  intros Hm Hb Hk Hr. unfold analyze_content. rewrite Hb.
  replace (falsy (JNum <$> Some k)) with false
    by (destruct k; [now destruct Hk|reflexivity|reflexivity]).
  change (default 0 (Some k)) with k.
  destruct (analyze_method req); [now destruct Hm| |].
  all: unfold run_analysis, update_select_single, update, bind, start;
    cbn [store log]; rewrite lookup_store_update, Hr; simpl.
  all: now rewrite !store_update_missing by (rewrite ?store_update_missing; assumption).
Qed.

Lemma unknown_idea_calls_no_provider_witness :
  fst (analyze_content Sample.scenario_ok
         {| analyze_method := POST; analyze_body := Some (Some 7) |}
         (start Sample.table2))
  = {| status := 500; body := BodyError StoreError |}.
Proof.
  rewrite (unknown_idea_calls_no_provider Sample.scenario_ok
             {| analyze_method := POST; analyze_body := Some (Some 7) |}
             Sample.table2 7); [reflexivity|discriminate|reflexivity|lia|].
  vm_compute; reflexivity.
Defined.

(** ** A run on an existing row is the search step, then the completion
    step *)

Lemma analyze_content_on_row (env : AnalyzeEnv) (req : AnalyzeRequest)
    (s : Store) (k : Z) (r : Idea) :
  analyze_method req <> OPTIONS -> analyze_body req = Some (Some k) -> k <> 0 ->
  rows s !! k = Some r ->
  analyze_content env req (start s) = pipeline env k r s.
Proof.
  intros Hm Hb Hk Hr. unfold pipeline, search_step, completion_step, marked_then.
  start_run Hm Hb Hk Hr.
  all: destruct (brave env) as [|bst [bd|]]; simpl; try reflexivity.
  all: destruct (searchContext bd) as [e|ctx]; simpl; try reflexivity.
  all: destruct (openai env) as [|st [cc|]]; simpl; try reflexivity.
  all: destruct (ok st); simpl; try reflexivity.
  all: destruct (choice_content cc) as [e|c]; simpl; try reflexivity.
  all: destruct (analysis_text c) as [e|text]; simpl; reflexivity.
Qed.

Lemma rows_marked_then (k : Z) (p : Patch) (s : Store) (r : Idea) :
  rows s !! k = Some r ->
  rows (marked_then k p s)
  = <[k := apply_patch p (apply_patch (patch_status analyzing) r)]> (rows s).
Proof. apply rows_two_updates. Qed.

(** X3: when the search call does not complete, or its body is not JSON,
    or reading the results out of the body throws, the run on an existing
    row is answered 500 with that error, no completion call is made, and
    the row is the row it was with failed as its analysis_status. *)
Theorem search_failure_stops_the_run (env : AnalyzeEnv) (req : AnalyzeRequest)
    (s : Store) (k : Z) (r : Idea) (e : Exn) :
  analyze_method req <> OPTIONS -> analyze_body req = Some (Some k) -> k <> 0 ->
  rows s !! k = Some r ->
  search_step (brave env) = inl e ->
  let run := analyze_content env req (start s) in
  fst run = {| status := 500; body := BodyError e |}
  /\ calls_of (log (snd run)) = [EvSearch (title r)]
  /\ rows (store (snd run)) = <[k := with_status failed r]> (rows s).
Proof.
  intros Hm Hb Hk Hr He run. subst run.
  rewrite (analyze_content_on_row env req s k r Hm Hb Hk Hr).
  unfold pipeline. rewrite He. cbn [fst snd log store].
  split; [reflexivity|]. split; [reflexivity|].
  now rewrite (rows_marked_then k _ s r Hr).
Qed.

Lemma search_failure_stops_the_run_witness :
  calls_of (log (snd (analyze_content Cases.null_result Sample.trigger2
                        (start Sample.table2))))
  = [EvSearch (lit "Raising a puppy")].
Proof.
  apply (search_failure_stops_the_run Cases.null_result Sample.trigger2 Sample.table2 2
           Sample.idea2 TypeError).
  - discriminate.
  - reflexivity.
  - lia.
  - vm_compute; reflexivity.
  - vm_compute; reflexivity.
Defined.

Lemma analyze_content_no_row (env : AnalyzeEnv) (req : AnalyzeRequest)
    (s : Store) (k : Z) :
  analyze_method req <> OPTIONS -> analyze_body req = Some (Some k) -> k <> 0 ->
  rows s !! k = None ->
  analyze_content env req (start s)
  = ({| status := 500; body := BodyError StoreError |},
     {| store := s;
        log := [EvUpdate k (patch_status analyzing);
                EvUpdate k (patch_status failed)] |}).
Proof.
  intros Hm Hb Hk Hr. unfold analyze_content. rewrite Hb.
  replace (falsy (JNum <$> Some k)) with false
    by (destruct k; [now destruct Hk|reflexivity|reflexivity]).
  change (default 0 (Some k)) with k.
  destruct (analyze_method req); [now destruct Hm| |].
  all: unfold run_analysis, update_select_single, update, bind, start;
    cbn [store log]; rewrite lookup_store_update, Hr; simpl.
  all: now rewrite !store_update_missing by (rewrite ?store_update_missing; assumption).
Qed.

(** The three ways a trigger can go: nothing is done, the identifier has
    no row, or the pipeline runs on the row. *)
Lemma analyze_content_cases (env : AnalyzeEnv) (req : AnalyzeRequest) (s : Store) :
  snd (analyze_content env req (start s)) = start s
  \/ (exists k, analyze_body req = Some (Some k) /\ k <> 0
                /\ rows s !! k = None
                /\ analyze_content env req (start s)
                   = ({| status := 500; body := BodyError StoreError |},
                      {| store := s;
                         log := [EvUpdate k (patch_status analyzing);
                                 EvUpdate k (patch_status failed)] |}))
  \/ (exists k r, analyze_method req <> OPTIONS
                  /\ analyze_body req = Some (Some k) /\ k <> 0
                  /\ rows s !! k = Some r
                  /\ analyze_content env req (start s) = pipeline env k r s).
Proof.
  assert (Hm : analyze_method req = OPTIONS \/ analyze_method req <> OPTIONS)
    by (destruct (analyze_method req); [now left|now right|now right]).
  destruct Hm as [Em|Hm].
  { left. unfold analyze_content. now rewrite Em. }
  destruct (analyze_body req) as [o|] eqn:Eb.
  2:{ left. unfold analyze_content. rewrite Eb.
      now destruct (analyze_method req). }
  destruct (falsy (JNum <$> o)) eqn:Ef.
  { left. unfold analyze_content. rewrite Eb, Ef.
    now destruct (analyze_method req). }
  apply falsy_id in Ef as (k & -> & Hk).
  destruct (rows s !! k) as [r|] eqn:Er.
  - right; right. exists k, r. repeat split; try assumption.
    now apply analyze_content_on_row.
  - right; left. exists k. repeat split; try assumption.
    now apply analyze_content_no_row.
Qed.

(** X4: a run makes at most one search call and at most one completion
    call, the completion call only after a search answer was read, with
    the title of the stored row and the context read from that answer:
    nothing is tried twice. *)
Theorem one_attempt_search_then_completion (env : AnalyzeEnv)
    (req : AnalyzeRequest) (s : Store) :
  let calls := calls_of (log (snd (analyze_content env req (start s)))) in
  calls = []
  \/ exists k r, analyze_body req = Some (Some k) /\ rows s !! k = Some r
       /\ (calls = [EvSearch (title r)]
           \/ exists ctx, search_step (brave env) = inr ctx
                /\ calls = [EvSearch (title r);
                            EvCompletion {| prompt_title := title r;
                                            prompt_search := ctx |}]).
Proof.
  intros calls. subst calls.
  destruct (analyze_content_cases env req s)
    as [E|[(k & Hb & Hk & Hr & E)|(k & r & Hm & Hb & Hk & Hr & E)]];
    rewrite E; [now left|now left|].
  right. exists k, r. split; [assumption|]. split; [assumption|].
  unfold pipeline. destruct (search_step (brave env)) as [e|ctx]; [now left|].
  right. exists ctx. split; [reflexivity|].
  now destruct (completion_step (openai env)).
Qed.



(** X6: when the completion step fails in any way (the call does not
    complete, the status is not a success, the body is not JSON, it has no
    first choice with a message, or the content is neither empty nor a
    string), the run is answered 500 with that error after the completion
    call was made, and the row is the row it was with failed as its
    analysis_status. *)
Theorem completion_failure_stops_the_run (env : AnalyzeEnv)
    (req : AnalyzeRequest) (s : Store) (k : Z) (r : Idea)
    (ctx : list SearchResult) (e : Exn) :
  analyze_method req <> OPTIONS -> analyze_body req = Some (Some k) -> k <> 0 ->
  rows s !! k = Some r ->
  search_step (brave env) = inr ctx ->
  completion_step (openai env) = inl e ->
  let run := analyze_content env req (start s) in
  fst run = {| status := 500; body := BodyError e |}
  /\ calls_of (log (snd run))
     = [EvSearch (title r);
        EvCompletion {| prompt_title := title r; prompt_search := ctx |}]
  /\ rows (store (snd run)) = <[k := with_status failed r]> (rows s).
Proof.
  intros Hm Hb Hk Hr Hs Hc run. subst run.
  rewrite (analyze_content_on_row env req s k r Hm Hb Hk Hr).
  unfold pipeline. rewrite Hs, Hc. cbn [fst snd log store].
  split; [reflexivity|]. split; [reflexivity|].
  now rewrite (rows_marked_then k _ s r Hr).
Qed.

Lemma completion_failure_stops_the_run_witness :
  fst (analyze_content Cases.content_parts Sample.trigger2 (start Sample.table2))
  = {| status := 500; body := BodyError TypeError |}.
Proof.
  assert (Hm : analyze_method Sample.trigger2 <> OPTIONS) by discriminate.
  assert (Hk : 2 <> 0) by lia.
  assert (Hr : rows Sample.table2 !! 2 = Some Sample.idea2)
    by (vm_compute; reflexivity).
  assert (Hs : search_step (brave Cases.content_parts)
               = inr [{| sr_title := Some (JStr (lit "t"));
                         sr_url := Some (JStr (lit "u"));
                         sr_snippet := Some (JStr (lit "d")) |}])
    by (vm_compute; reflexivity).
  assert (Hc : completion_step (openai Cases.content_parts) = inl TypeError)
    by (vm_compute; reflexivity).
  apply (completion_failure_stops_the_run Cases.content_parts Sample.trigger2
           Sample.table2 2 Sample.idea2 _ TypeError Hm eq_refl Hk Hr Hs Hc).
Defined.

(** ** What a run leaves alone *)

Lemma store_update_keeps (k : Z) (p : Patch) (s : Store) (k' : Z) (r : Idea) :
  set_project_status p = None ->
  rows s !! k' = Some r ->
  exists r', rows (store_update k p s) !! k' = Some r'
             /\ id r' = id r /\ title r' = title r /\ user_id r' = user_id r
             /\ project_status r' = project_status r
             /\ (k <> k' -> r' = r).
Proof.
  intros Hp Hr. destruct (decide (k = k')) as [<-|Hne].
  - rewrite lookup_store_update, Hr. eexists. split; [reflexivity|].
    cbn. rewrite Hp. repeat split; try reflexivity. now intros [].
  - rewrite lookup_store_update_ne by assumption. exists r. now repeat split.
Qed.

Lemma dom_store_update (k : Z) (p : Patch) (s : Store) :
  dom (rows (store_update k p s)) = dom (rows s).
Proof. unfold store_update; cbn. apply dom_alter_L. Qed.

(** X7: a run of the orchestrator adds no row and removes none, leaves the
    identity sequence where it was, keeps the identifier, title, owner and
    project_status of every row, and leaves every row other than the one
    named by the trigger exactly as it was. *)
Theorem run_keeps_rows_and_project_status (env : AnalyzeEnv)
    (req : AnalyzeRequest) (w : World) :
  let s' := store (snd (analyze_content env req w)) in
  next_id s' = next_id (store w)
  /\ dom (rows s') = dom (rows (store w))
  /\ forall k r, rows (store w) !! k = Some r ->
       exists r', rows s' !! k = Some r'
                  /\ id r' = id r /\ title r' = title r /\ user_id r' = user_id r
                  /\ project_status r' = project_status r
                  /\ (analyze_body req <> Some (Some k) -> r' = r).
Proof.
  intros s'. subst s'.
  destruct (analyze_content_outcome env req w)
    as [| |k0 e calls Hb _ _|k0 r0 ctx html Hb _ _]; cbn [store].
  1,2: split; [reflexivity|]; split; [reflexivity|];
       intros k r Hr; exists r; now repeat split.
  all: split; [reflexivity|]; split; [now rewrite !dom_store_update|].
  all: intros k r Hr.
  all: destruct (store_update_keeps k0 (patch_status analyzing) (store w) k r
                   eq_refl Hr) as (r1 & Hr1 & Hi1 & Ht1 & Hu1 & Hp1 & He1).
  all: match goal with
       | |- context [store_update ?k1 ?p (store_update ?k1 _ _)] =>
           destruct (store_update_keeps k1 p
                       (store_update k1 (patch_status analyzing) (store w))
                       k r1 eq_refl Hr1)
             as (r2 & Hr2 & Hi2 & Ht2 & Hu2 & Hp2 & He2)
       end.
  all: exists r2; split; [assumption|]; repeat split; try congruence.
  all: intros Hne; assert (k0 <> k) by congruence; rewrite He2, He1; auto.
Qed.

Lemma run_keeps_rows_and_project_status_witness :
  exists r', rows (store (snd (analyze_content Sample.scenario_ok Sample.trigger2
                                 (start Sample.table2)))) !! 1 = Some r'
             /\ r' = Sample.idea1.
Proof.
  destruct (proj2 (proj2 (run_keeps_rows_and_project_status Sample.scenario_ok
                            Sample.trigger2 (start Sample.table2)))
              1 Sample.idea1) as (r' & Hr' & _ & _ & _ & _ & He).
  - vm_compute; reflexivity.
  - exists r'. split; [assumption|]. apply He. discriminate.
Defined.

(** ** The score and the analysis of a row go together *)



(** ** The log of a run does not depend on what was logged before *)

Lemma world_eta (w : World) : {| store := store w; log := log w ++ [] |} = w.
Proof. destruct w; cbn. now rewrite app_nil_r. Qed.

Lemma analyze_content_log (env : AnalyzeEnv) (req : AnalyzeRequest) (w : World) :
  analyze_content env req w
  = (fst (analyze_content env req (start (store w))),
     {| store := store (snd (analyze_content env req (start (store w))));
        log := log w ++ log (snd (analyze_content env req (start (store w)))) |}).
Proof.
  unfold analyze_content.
  destruct (analyze_method req);
    [cbn [fst snd start store log]; now rewrite world_eta| |].
  all: destruct (analyze_body req) as [o|];
    [|cbn [fst snd start store log]; now rewrite world_eta].
  all: destruct (falsy (JNum <$> o)) eqn:Ef;
    [cbn [fst snd start store log]; now rewrite world_eta|].
  all: apply falsy_id in Ef as (k & -> & Hk).
  all: change (default 0 (Some k)) with k.
  all: unfold run_analysis, update_select_single, update, bind, start;
    cbn [store log].
  all: rewrite !lookup_store_update.
  all: destruct (rows (store w) !! k) as [r|]; simpl;
    rewrite <- ?app_assoc; try reflexivity.
  all: destruct (brave env) as [|bst [bd|]]; simpl;
    rewrite <- ?app_assoc; try reflexivity.
  all: destruct (searchContext bd) as [e|ctx]; simpl;
    rewrite <- ?app_assoc; try reflexivity.
  all: destruct (openai env) as [|st [cc|]]; simpl;
    rewrite <- ?app_assoc; try reflexivity.
  all: destruct (ok st); simpl; rewrite <- ?app_assoc; try reflexivity.
  all: destruct (choice_content cc) as [e|c]; simpl;
    rewrite <- ?app_assoc; try reflexivity.
  all: destruct (analysis_text c) as [e|text]; simpl;
    rewrite <- ?app_assoc; reflexivity.
Qed.

(** ** Identifiers *)

Lemma fitting_app (s : Store) (evs evs' : list Event) :
  fitting s (evs ++ evs') <-> fitting s evs /\ fitting (replay evs s) evs'.
Proof.
  revert s. induction evs as [|ev evs IH]; intros s; cbn.
  - tauto.
  - rewrite IH. tauto.
Qed.

Lemma fitting_no_insert (s : Store) (evs : list Event) :
  Forall no_insert evs -> fitting s evs.
Proof.
  intros H. revert s. induction H as [|ev evs Hev _ IH]; intros s; cbn; [exact I|].
  split; [|apply IH]. now destruct ev.
Qed.

Lemma analyze_content_no_insert (env : AnalyzeEnv) (req : AnalyzeRequest) (s : Store) :
  Forall no_insert (log (snd (analyze_content env req (start s)))).
Proof.
  destruct (analyze_content_cases env req s)
    as [E|[(k & _ & _ & _ & E)|(k & r & _ & _ & _ & _ & E)]]; rewrite E.
  - constructor.
  - repeat constructor.
  - unfold pipeline. destruct (search_step (brave env)); [repeat constructor|].
    destruct (completion_step (openai env)); repeat constructor.
Qed.

Lemma intake_user (uid t : str) (w : World) :
  intake (User uid) t w
  = (inr {| id := next_id (store w); title := t; user_id := uid;
            analysis_status := analyzing; project_status := New;
            score := None; analysis := None |},
     {| store := snd (store_insert t uid analyzing New (store w));
        log := log w ++ [EvGetUser;
                         EvInsert (fst (store_insert t uid analyzing New (store w)));
                         EvInvoke (next_id (store w))] |}).
Proof.
  unfold intake, bind, emit, insert_select_single, store_insert; simpl.
  now rewrite <- !app_assoc.
Qed.

Lemma intake_no_user (a : AuthResult) (t : str) (w : World) :
  (forall uid, a <> User uid) ->
  exists e, intake a t w
            = (inl e, {| store := store w; log := log w ++ [EvGetUser] |}).
Proof.
  intros H. unfold intake, bind, emit.
  destruct a as [| |uid]; simpl; eauto. now destruct (H uid).
Qed.

Lemma submit_fitting (env : SubmitEnv) (req : SubmitRequest) (s : Store) :
  fitting s (log (snd (submit_idea env req (start s)))).
Proof.
  unfold submit_idea.
  destruct (submit_method req); [exact I| |].
  all: destruct (submit_body req) as [t|]; [|exact I].
  all: destruct (falsy (JStr <$> t)); [exact I|].
  all: destruct (auth env) as [| |uid] eqn:Ea.
  all: try (destruct (intake_no_user (auth env) (default [] t) (start s))
              as (e & E); [rewrite Ea; discriminate|];
            rewrite <- Ea, E; cbn; auto; fail).
  all: rewrite intake_user; cbn [fst snd id].
  all: unfold settle; destruct (dispatch env) as [aenv|];
    [rewrite analyze_content_log|]; cbn [snd log start store_insert store fst].
  all: try (repeat split; fail).
  all: change ([EvGetUser; ?a; ?b] ++ ?l) with ([EvGetUser; a; b] ++ l).
  all: apply fitting_app; split; [repeat split|].
  all: apply fitting_no_insert, analyze_content_no_insert.
Qed.

Lemma events_fitting (a : Action) (s : Store) : fitting s (events a s).
Proof.
  destruct a as [env req|env req|k p]; unfold events.
  - apply submit_fitting.
  - apply fitting_no_insert, analyze_content_no_insert.
  - repeat constructor.
Qed.

Lemma apply_event_wf (s : Store) (ev : Event) :
  written ev -> fits s ev -> store_wf s -> store_wf (apply_event s ev).
Proof.
  intros Hev Hfit [Hn Hs]. destruct Hev; cbn [apply_event]; try (now split).
  1-4: split; [assumption|]; intros k' r' Hr';
       match type of Hr' with
       | rows (store_update ?k0 ?p ?s0) !! _ = _ =>
           destruct (decide (k0 = k')) as [<-|Hne];
           [rewrite lookup_store_update in Hr';
            destruct (rows s0 !! k0) as [r|] eqn:Er; [|discriminate];
            injection Hr' as <-; apply (Hs _ _ Er)
           |rewrite lookup_store_update_ne in Hr' by assumption;
            now apply Hs]
       end.
  cbn in Hfit. subst k. unfold store_wf. cbn [rows next_id id]. split; [lia|].
  intros k' r'. destruct (decide (next_id s = k')) as [<-|Hne].
  - rewrite lookup_insert_eq. intros [= <-]. cbn [id]. split; [reflexivity|lia].
  - rewrite lookup_insert_ne by assumption. intros Hr'.
    destruct (Hs _ _ Hr') as [Hi Hk]. split; [assumption|lia].
Qed.

Lemma visited_wf (evs : list Event) (s s' : Store) :
  Forall written evs -> fitting s evs -> store_wf s ->
  In s' (visited evs s) -> store_wf s'.
Proof.
  intros Hw. revert s. induction Hw as [|ev evs Hev _ IH]; intros s Hf Hs.
  - intros [<-|[]]. assumption.
  - destruct Hf as [Hfit Hf]. intros [<-|Hin]; [assumption|].
    apply (IH (apply_event s ev)); try assumption.
    now apply apply_event_wf.
Qed.

Lemma reachable_wf (s : Store) : reachable s -> store_wf s.
Proof.
  induction 1 as [|s a s' _ IH Hin].
  - split; [reflexivity|]. intros k r. unfold empty_store; cbn [rows].
    rewrite lookup_empty. discriminate.
  - apply (visited_wf (events a s) s); try assumption.
    + apply events_written.
    + apply events_fitting.
Qed.

(** ** Submissions *)

(** X10: a submission with a title for which the identity service gives an
    error or no user is answered 400 after that one call: no row is
    inserted and the orchestrator is not invoked. *)
Theorem unauthenticated_submission_writes_nothing (env : SubmitEnv)
    (req : SubmitRequest) (w : World) (t : str) :
  submit_method req <> OPTIONS ->
  submit_body req = Some (Some t) -> t <> [] ->
  auth env = AuthFails \/ auth env = NoUser ->
  status (fst (submit_idea env req w)) = 400
  /\ snd (submit_idea env req w)
     = {| store := store w; log := log w ++ [EvGetUser] |}.
Proof.
  intros Hm Hb Ht Ha. unfold submit_idea. rewrite Hb.
  replace (falsy (JStr <$> Some t)) with false by (now destruct t).
  change (default [] (Some t)) with t.
  destruct (intake_no_user (auth env) t w) as (e & E).
  { intros uid. destruct Ha as [-> | ->]; discriminate. }
  rewrite E. destruct (submit_method req); [now destruct Hm| |]; now split.
Qed.

Lemma unauthenticated_submission_writes_nothing_witness :
  snd (submit_idea {| auth := NoUser; dispatch := DispatchRuns Sample.scenario_ok |}
         {| submit_method := POST; submit_body := Some (Some (lit "Idea")) |}
         (start empty_store))
  = {| store := empty_store; log := [EvGetUser] |}.
Proof.
  apply (unauthenticated_submission_writes_nothing
           {| auth := NoUser; dispatch := DispatchRuns Sample.scenario_ok |}
           {| submit_method := POST; submit_body := Some (Some (lit "Idea")) |}
           (start empty_store) (lit "Idea")).
  - discriminate.
  - reflexivity.
  - discriminate.
  - right; reflexivity.
Defined.

Lemma pipeline_terminal (env : AnalyzeEnv) (k : Z) (r : Idea) (s : Store) :
  rows s !! k = Some r ->
  exists r', rows (store (snd (pipeline env k r s))) = <[k := r']> (rows s)
             /\ next_id (store (snd (pipeline env k r s))) = next_id s
             /\ id r' = id r /\ title r' = title r /\ user_id r' = user_id r
             /\ project_status r' = project_status r
             /\ terminal (analysis_status r') = true.
Proof.
  intros Hr. unfold pipeline.
  destruct (search_step (brave env)) as [e|ctx]; cbn [snd store].
  2: destruct (completion_step (openai env)) as [e|html]; cbn [snd store].
  all: rewrite (rows_marked_then k _ s r Hr); eexists; split; [reflexivity|].
  all: now repeat split.
Qed.

Lemma submit_store_runs (req : SubmitRequest) (s : Store) (t uid : str)
    (aenv : AnalyzeEnv) :
  submit_method req <> OPTIONS ->
  submit_body req = Some (Some t) -> t <> [] ->
  store (snd (submit_idea {| auth := User uid; dispatch := DispatchRuns aenv |}
                req (start s)))
  = store (snd (analyze_content aenv
                  {| analyze_method := POST;
                     analyze_body := Some (Some (next_id s)) |}
                  (start (snd (store_insert t uid analyzing New s))))).
Proof.
  intros Hm Hb Ht. unfold submit_idea. rewrite Hb.
  replace (falsy (JStr <$> Some t)) with false by (now destruct t).
  change (default [] (Some t)) with t. cbn [auth dispatch].
  rewrite intake_user.
  destruct (submit_method req); [now destruct Hm| |].
  all: cbn [fst snd id settle start store].
  all: now rewrite analyze_content_log.
Qed.

(** X11: a submission with a title by an authenticated user, made on a
    table the program can be in and followed by the run it dispatches,
    adds exactly one row, under the next identifier; every row that was
    there is as it was; and the new row has the submitted title, the
    submitting user, project_status New and an analysis_status that is
    completed or failed. *)
Theorem submission_then_analysis_adds_one_terminal_row (req : SubmitRequest)
    (s : Store) (t uid : str) (aenv : AnalyzeEnv) :
  reachable s ->
  submit_method req <> OPTIONS ->
  submit_body req = Some (Some t) -> t <> [] ->
  let env := {| auth := User uid; dispatch := DispatchRuns aenv |} in
  let s' := store (snd (submit_idea env req (start s))) in
  next_id s' = next_id s + 1
  /\ (forall k r, rows s !! k = Some r -> rows s' !! k = Some r)
  /\ exists r', rows s' = <[next_id s := r']> (rows s)
                /\ id r' = next_id s /\ title r' = t /\ user_id r' = uid
                /\ project_status r' = New
                /\ terminal (analysis_status r') = true.
Proof.
  intros Hs Hm Hb Ht env s'. subst env s'.
  destruct (reachable_wf s Hs) as [Hn Hrows].
  assert (Hfresh : rows s !! next_id s = None).
  { destruct (rows s !! next_id s) as [r|] eqn:E; [|reflexivity].
    destruct (Hrows _ _ E). lia. }
  rewrite (submit_store_runs req s t uid aenv Hm Hb Ht).
  set (newIdea := {| id := next_id s; title := t; user_id := uid;
                     analysis_status := analyzing; project_status := New;
                     score := None; analysis := None |}).
  set (s1 := snd (store_insert t uid analyzing New s)).
  assert (Hnew : rows s1 !! next_id s = Some newIdea)
    by (subst s1; cbn; apply lookup_insert_eq).
  rewrite (analyze_content_on_row aenv _ s1 (next_id s) newIdea);
    [|discriminate|reflexivity|lia|assumption].
  destruct (pipeline_terminal aenv (next_id s) newIdea s1 Hnew)
    as (r' & Hrows' & Hnext & Hi & Hti & Hu & Hp & Hterm).
  assert (Hfinal : rows (store (snd (pipeline aenv (next_id s) newIdea s1)))
                   = <[next_id s := r']> (rows s)).
  { rewrite Hrows'. subst s1. cbn. apply insert_insert_eq. }
  split; [rewrite Hnext; reflexivity|].
  split; [intros k r Hr; rewrite Hfinal, lookup_insert_ne;
          [assumption|intros <-; congruence]|].
  exists r'. now repeat split.
Qed.

Lemma submission_then_analysis_adds_one_terminal_row_witness :
  next_id (store (snd (submit_idea
                         {| auth := User (lit "u1");
                            dispatch := DispatchRuns Sample.search_down |}
                         {| submit_method := POST;
                            submit_body := Some (Some (lit "Idea")) |}
                         (start Sample.table_after_submit1))))
  = next_id Sample.table_after_submit1 + 1.
Proof.
  apply (submission_then_analysis_adds_one_terminal_row
           {| submit_method := POST; submit_body := Some (Some (lit "Idea")) |}
           Sample.table_after_submit1 (lit "Idea") (lit "u1") Sample.search_down).
  - apply reachable_replay, reach_empty.
  - discriminate.
  - reflexivity.
  - discriminate.
Defined.

(** ** The two status columns are independent *)

Lemma store_update_comm (k k' : Z) (p q : Patch) (s : Store) :
  (forall r, apply_patch p (apply_patch q r) = apply_patch q (apply_patch p r)) ->
  store_update k p (store_update k' q s) = store_update k' q (store_update k p s).
Proof.
  intros Hpq. unfold store_update; cbn [rows next_id]. f_equal.
  apply map_eq. intros j.
  destruct (decide (k = j)) as [Ek|Hk]; destruct (decide (k' = j)) as [Ek'|Hk'];
    subst.
  - rewrite !lookup_alter_eq.
    destruct (rows s !! j) as [r|]; cbn; [now rewrite Hpq|reflexivity].
  - now rewrite lookup_alter_eq, !lookup_alter_ne, lookup_alter_eq by assumption.
  - now rewrite lookup_alter_ne, !lookup_alter_eq, lookup_alter_ne
      by assumption.
  - now rewrite !lookup_alter_ne by assumption.
Qed.

Lemma marked_then_project (k k' : Z) (q : Patch) (p : ProjectStatus) (s : Store) :
  set_project_status q = None ->
  marked_then k q (store_update k' (patch_project p) s)
  = store_update k' (patch_project p) (marked_then k q s).
Proof.
  intros Hq. unfold marked_then.
  rewrite (store_update_comm k k' (patch_status analyzing) (patch_project p))
    by reflexivity.
  apply store_update_comm. intros r. unfold apply_patch. cbn. now rewrite Hq.
Qed.

(** X12: changing the project_status of a row from the dashboard and
    running the orchestrator can be done in either order: the run gives
    the same answer and the same events, and the table is the same. *)
Theorem project_status_change_commutes_with_run (env : AnalyzeEnv)
    (req : AnalyzeRequest) (s : Store) (k : Z) (p : ProjectStatus) :
  let after_run := analyze_content env req (start s) in
  let changed := store (snd (handleStatusChange k p (start s))) in
  analyze_content env req (start changed)
  = (fst after_run,
     {| store := store (snd (handleStatusChange k p (start (store (snd after_run)))));
        log := log (snd after_run) |}).
Proof.
  intros after_run changed. subst after_run changed.
  unfold handleStatusChange, update. cbn [snd store start].
  assert (Hm : analyze_method req = OPTIONS \/ analyze_method req <> OPTIONS)
    by (destruct (analyze_method req); [now left|now right|now right]).
  destruct Hm as [Em|Hm].
  { unfold analyze_content. now rewrite Em. }
  destruct (analyze_body req) as [o|] eqn:Eb.
  2:{ unfold analyze_content. rewrite Eb. now destruct (analyze_method req). }
  destruct (falsy (JNum <$> o)) eqn:Ef.
  { unfold analyze_content. rewrite Eb, Ef. now destruct (analyze_method req). }
  apply falsy_id in Ef as (k0 & -> & Hk).
  destruct (rows s !! k0) as [r|] eqn:Er.
  - assert (Er' : exists r1, rows (store_update k (patch_project p) s) !! k0 = Some r1
                             /\ title r1 = title r).
    { destruct (decide (k = k0)) as [<-|Hne].
      - rewrite lookup_store_update, Er. eauto.
      - rewrite lookup_store_update_ne, Er by assumption. eauto. }
    destruct Er' as (r1 & Er1 & Ht).
    rewrite (analyze_content_on_row env req _ k0 r1 Hm Eb Hk Er1).
    rewrite (analyze_content_on_row env req s k0 r Hm Eb Hk Er).
    unfold pipeline. rewrite Ht.
    destruct (search_step (brave env)) as [e|ctx]; cbn [fst snd store log].
    2: destruct (completion_step (openai env)) as [e|html]; cbn [fst snd store log].
    all: now rewrite marked_then_project.
  - assert (Er' : rows (store_update k (patch_project p) s) !! k0 = None).
    { destruct (decide (k = k0)) as [<-|Hne].
      - now rewrite lookup_store_update, Er.
      - now rewrite lookup_store_update_ne, Er. }
    rewrite (analyze_content_no_row env req _ k0 Hm Eb Hk Er').
    now rewrite (analyze_content_no_row env req s k0 Hm Eb Hk Er).
Qed.

(** ** The search context *)

Lemma map_exn_length {A B} (f : A -> Exn + B) (l : list A) (l' : list B) :
  map_exn f l = inr l' -> length l' = length l.
Proof.
  revert l'. induction l as [|a l IH]; intros l'; cbn.
  - now intros [= <-].
  - destruct (f a) as [e|b]; cbn; [discriminate|].
    destruct (map_exn f l) as [e|bs]; cbn; [discriminate|].
    intros [= <-]. cbn. f_equal. now apply IH.
Qed.

Lemma searchContext_body_of (l : list Json) :
  searchContext (search_body_of l) = map_exn to_search_result (take 5 l).
Proof. reflexivity. Qed.

Lemma to_search_result_object (fields : list (str * Json)) :
  to_search_result (JObj fields) = inr (result_of_fields fields).
Proof. reflexivity. Qed.

Lemma map_exn_objects (fl : list (list (str * Json))) :
  map_exn to_search_result (map JObj fl) = inr (map result_of_fields fl).
Proof.
  induction fl as [|fields fl IH]; [reflexivity|].
  cbn [map map_exn]. now rewrite to_search_result_object, IH.
Qed.

(** X13: the search context has at most five entries.  When the results
    are objects it never throws and holds, in order, the title, url and
    description of the first five; what comes after the fifth result is
    not looked at, whatever it is; and a body without [web], or with a
    null [web], gives the empty context. *)
Theorem search_context_is_first_five :
  (forall braveData ctx,
      searchContext braveData = inr ctx -> (length ctx <= 5)%nat)
  /\ (forall fl : list (list (str * Json)),
        searchContext (search_body_of (map JObj fl))
        = inr (map result_of_fields (take 5 fl)))
  /\ (forall (fl : list (list (str * Json))) (rest : list Json),
        length fl = 5%nat ->
        searchContext (search_body_of (map JObj fl ++ rest))
        = inr (map result_of_fields fl))
  /\ (forall fields,
        own_property (lit "web") fields = None
        \/ own_property (lit "web") fields = Some JNull ->
        searchContext (JObj fields) = inr []).
Proof.
  split; [|split; [|split]].
  - intros bd ctx. unfold searchContext, bind_exn.
    destruct (prop "web" (Some bd)) as [e|web]; [discriminate|].
    assert (Hnil : @inr Exn _ (@nil SearchResult) = inr ctx -> (length ctx <= 5)%nat)
      by (intros [= <-]; cbn; lia).
    destruct web as [web|]; [|exact Hnil].
    destruct web; try exact Hnil; cbn [prop]; try discriminate.
    destruct (own_property (lit "results") fields) as [[| | | |l|]|];
      try discriminate.
    intros H%map_exn_length. rewrite H, length_take. lia.
  - intros fl. rewrite searchContext_body_of, <- fmap_take.
    apply map_exn_objects.
  - intros fl rest Hlen. rewrite searchContext_body_of.
    rewrite take_app_length' by now rewrite length_map.
    apply map_exn_objects.
  - intros fields H. unfold searchContext, prop, bind_exn.
    now destruct H as [-> | ->].
Qed.

Lemma search_context_is_first_five_witness :
  searchContext (search_body_of (map JObj (replicate 5 []) ++ [JNull; JNum 3]))
  = inr (map result_of_fields (replicate 5 [])).
Proof.
  apply (proj1 (proj2 (proj2 search_context_is_first_five))). reflexivity.
Defined.

(** * generate-daily-insights *)

(** ** Trimming *)

Lemma trim_start_app_spaces (sp s : str) :
  forallb Digest.is_space sp = true ->
  Digest.trim_start (sp ++ s) = Digest.trim_start s.
Proof.
  induction sp as [|c sp IH]; cbn; [reflexivity|].
  intros [-> H]%andb_prop. now apply IH.
Qed.

Lemma trim_start_split (s : str) :
  exists sp, s = sp ++ Digest.trim_start s /\ forallb Digest.is_space sp = true.
Proof.
  induction s as [|c s (sp & E & H)]; cbn.
  - now exists [].
  - destruct (Digest.is_space c) eqn:Ec.
    + exists (c :: sp). cbn. rewrite Ec, H. split; [congruence|reflexivity].
    + now exists [].
Qed.

Lemma trim_start_head (s : str) :
  match Digest.trim_start s with
  | c :: _ => Digest.is_space c = false
  | [] => True
  end.
Proof.
  induction s as [|c s IH]; cbn; [exact I|].
  destruct (Digest.is_space c) eqn:Ec; [exact IH|exact Ec].
Qed.

Lemma trim_start_fixed (s : str) :
  match s with c :: _ => Digest.is_space c = false | [] => True end ->
  Digest.trim_start s = s.
Proof. destruct s as [|c s]; cbn; [reflexivity|]. now intros ->. Qed.

Lemma trim_start_idem (s : str) :
  Digest.trim_start (Digest.trim_start s) = Digest.trim_start s.
Proof. apply trim_start_fixed, trim_start_head. Qed.

Lemma trim_end_idem (s : str) :
  Digest.trim_end (Digest.trim_end s) = Digest.trim_end s.
Proof.
  unfold Digest.trim_end. now rewrite rev_involutive, trim_start_idem.
Qed.

(** Trimming the end keeps a head that is not white space. *)
Lemma trim_start_suffix (s : str) : exists sp, s = sp ++ Digest.trim_start s.
Proof. destruct (trim_start_split s) as (sp & E & _). eauto. Qed.

Lemma trim_end_head (s : str) :
  match s with c :: _ => Digest.is_space c = false | [] => True end ->
  match Digest.trim_end s with
  | c :: _ => Digest.is_space c = false
  | [] => True
  end.
Proof.
  intros Hs. unfold Digest.trim_end.
  destruct (trim_start_split (rev s)) as (sp & E & Hsp).
  assert (Es : s = rev (Digest.trim_start (rev s)) ++ rev sp).
  { rewrite <- rev_app_distr, <- E. now rewrite rev_involutive. }
  destruct (rev (Digest.trim_start (rev s))) as [|c t] eqn:Et; [exact I|].
  rewrite Es in Hs. exact Hs.
Qed.

Lemma trim_idem (s : str) : Digest.trim (Digest.trim s) = Digest.trim s.
Proof.
  unfold Digest.trim.
  rewrite (trim_start_fixed (Digest.trim_end (Digest.trim_start s))).
  - apply trim_end_idem.
  - apply trim_end_head, trim_start_head.
Qed.

(** ** Cutting the fence off the insights *)

Lemma fence7_length : length (lit "```html") = 7%nat.
Proof. reflexivity. Qed.

Lemma startsWith_fence_app (b : str) :
  Digest.startsWith_fence (lit "```html" ++ b) = true.
Proof. unfold Digest.startsWith_fence. now rewrite starts_with_app. Qed.

Lemma substring_long (b : str) :
  (3 <= length b)%nat ->
  Digest.substring (lit "```html" ++ b) 7
    (Z.of_nat (length (lit "```html" ++ b)) - 3)
  = take (length b - 3) b.
Proof.
  intros Hb. unfold Digest.substring. rewrite length_app, fence7_length.
  replace (Z.min (Z.max 7 0) (Z.of_nat (7 + length b))) with 7 by lia.
  replace (Z.min (Z.max (Z.of_nat (7 + length b) - 3) 0) (Z.of_nat (7 + length b)))
    with (Z.of_nat (7 + length b) - 3) by lia.
  replace (Z.min 7 (Z.of_nat (7 + length b) - 3)) with 7 by lia.
  replace (Z.max 7 (Z.of_nat (7 + length b) - 3))
    with (Z.of_nat (7 + length b) - 3) by lia.
  replace (Z.to_nat (Z.of_nat (7 + length b) - 3 - 7)) with (length b - 3)%nat by lia.
  change (Z.to_nat 7) with (length (lit "```html")).
  now rewrite drop_app_length.
Qed.

Lemma substring_short (b : str) :
  (length b < 3)%nat ->
  Digest.substring (lit "```html" ++ b) 7
    (Z.of_nat (length (lit "```html" ++ b)) - 3)
  = drop (4 + length b) (lit "```html").
Proof.
  intros Hb.
  destruct b as [|c1 [|c2 [|c3 b]]]; [reflexivity|reflexivity|reflexivity|].
  cbn in Hb. lia.
Qed.

Lemma clean_insights_trimmed (c : str) :
  Digest.trim (Digest.clean_insights c) = Digest.clean_insights c.
Proof.
  unfold Digest.clean_insights.
  destruct (Digest.startsWith_fence (Digest.trim c)); apply trim_idem.
Qed.

(** X14: the cleaning of the insights.  A content that does not start
    with the fence after trimming is only trimmed.  One that does loses
    its first seven and its last three characters, whatever the last
    three are: a fenced body comes out trimmed, and a content whose
    closing fence is missing loses the last three characters of its
    markup.  With fewer than three characters after the fence the result
    is the end of the word html.  The result is always trimmed. *)
Theorem clean_insights_cuts_seven_and_three :
  (forall c, Digest.startsWith_fence (Digest.trim c) = false ->
             Digest.clean_insights c = Digest.trim c)
  /\ (forall c b, Digest.trim c = lit "```html" ++ b -> (3 <= length b)%nat ->
        Digest.clean_insights c = Digest.trim (take (length b - 3) b))
  /\ (forall c b, Digest.trim c = lit "```html" ++ b ++ lit "```" ->
        Digest.clean_insights c = Digest.trim b)
  /\ (forall c b, Digest.trim c = lit "```html" ++ b -> (length b < 3)%nat ->
        Digest.clean_insights c = drop (4 + length b) (lit "```html"))
  /\ (forall c, Digest.trim (Digest.clean_insights c) = Digest.clean_insights c).
Proof.
  assert (Hlong : forall c b, Digest.trim c = lit "```html" ++ b ->
            (3 <= length b)%nat ->
            Digest.clean_insights c = Digest.trim (take (length b - 3) b)).
  { intros c b E Hb. unfold Digest.clean_insights.
    now rewrite E, startsWith_fence_app, substring_long. }
  split; [|split; [|split; [|split]]].
  - intros c H. unfold Digest.clean_insights. now rewrite H.
  - exact Hlong.
  - intros c b E. rewrite (Hlong c (b ++ lit "```") E).
    + rewrite length_app. cbn [length lit list_ascii_of_string].
      replace (length b + 3 - 3)%nat with (length b) by lia.
      now rewrite take_app_length.
    + rewrite length_app. cbn. lia.
  - intros c b E Hb. unfold Digest.clean_insights.
    rewrite E, startsWith_fence_app, substring_short by assumption.
    destruct b as [|c1 [|c2 [|c3 b]]]; [reflexivity|reflexivity|reflexivity|].
    cbn in Hb. lia.
  - apply clean_insights_trimmed.
Qed.

Lemma clean_insights_cuts_seven_and_three_witness :
  Digest.clean_insights (lit "  ```html<ul><li>x</li></ul>")
  = Digest.trim (lit "<ul><li>x</li></").
Proof.
  apply (proj1 (proj2 clean_insights_cuts_seven_and_three)
           (lit "  ```html<ul><li>x</li></ul>") (lit "<ul><li>x</li></ul>")).
  - vm_compute; reflexivity.
  - cbn; lia.
Defined.

(** ** Runs of the digest *)

Ltac digest_run :=
  unfold Digest.generate_daily_insights, Digest.insights, Digest.fetch,
    Digest.bind, Digest.emit, Digest.json, Digest.lift, Digest.insert,
    Digest.ret, Digest.throw.

(** X15: the digest reads the status of the search answer: when it is not
    a success the run is answered 500 with that status, no completion call
    is made and nothing is stored. *)
Theorem digest_checks_search_status (env : AnalyzeEnv) (m : Method)
    (w : Digest.World) (st : Z) (b : option Json) :
  m <> OPTIONS -> brave env = Responded st b -> ok st = false ->
  Digest.generate_daily_insights env m w
  = ({| Digest.status := 500;
        Digest.body := Digest.BodyError (Digest.SearchStatus st) |},
     {| Digest.daily_insights := Digest.daily_insights w;
        Digest.log := Digest.log w ++ [Digest.EvSearch] |}).
Proof.
  intros Hm Hb Hst. digest_run. rewrite Hb. cbn. rewrite Hst. cbn.
  destruct m; [now destruct Hm| |]; reflexivity.
Qed.

Lemma digest_checks_search_status_witness :
  fst (Digest.generate_daily_insights Sample.search_rate_limited POST
         {| Digest.daily_insights := []; Digest.log := [] |})
  = {| Digest.status := 500;
       Digest.body := Digest.BodyError (Digest.SearchStatus 429) |}.
Proof.
  rewrite (digest_checks_search_status Sample.search_rate_limited POST
             {| Digest.daily_insights := []; Digest.log := [] |}
             429 (Some Sample.search_error_body));
    [reflexivity|discriminate|reflexivity|reflexivity].
Defined.

(** The two ways a run of the digest can end. *)
Lemma digest_outcome (env : AnalyzeEnv) (m : Method) (w : Digest.World) :
  let run := Digest.generate_daily_insights env m w in
  (snd run = w /\ fst run = {| Digest.status := 200; Digest.body := Digest.BodyOk |}
   /\ m = OPTIONS)
  \/ (exists e, fst run = {| Digest.status := 500; Digest.body := Digest.BodyError e |}
                /\ Digest.daily_insights (snd run) = Digest.daily_insights w)
  \/ (exists ctx content,
        m <> OPTIONS
        /\ fst run = {| Digest.status := 200;
                        Digest.body := Digest.BodySuccess (Digest.clean_insights content) |}
        /\ snd run = {| Digest.daily_insights :=
                          Digest.daily_insights w ++ [Digest.clean_insights content];
                        Digest.log :=
                          Digest.log w ++
                          [Digest.EvSearch; Digest.EvCompletion ctx;
                           Digest.EvInsert (Digest.clean_insights content)] |}).
Proof.
  intros run. subst run. digest_run.
  destruct m; [now left| |].
  all: right.
  all: destruct (brave env) as [|bst bb]; cbn; [left; eauto|].
  all: destruct (ok bst); cbn; [|left; eauto].
  all: destruct bb as [bd|]; cbn; [|left; eauto].
  all: destruct (Digest.searchContext bd) as [e|ctx]; cbn; [left; eauto|].
  all: destruct (openai env) as [|st ob]; cbn; [left; eauto|].
  all: destruct (ok st); cbn; [|left; eauto].
  all: destruct ob as [cc|]; cbn; [|left; eauto].
  all: destruct (Digest.content_string cc) as [e|content]; cbn; [left; eauto|].
  all: right; exists ctx, content; rewrite <- !app_assoc.
  all: (split; [discriminate|]); split; reflexivity.
Qed.

(** X16: a run of the digest that is answered with insights has appended
    exactly one row to daily_insights, holding the insights of the answer,
    and these are trimmed; every other run leaves the table as it was. *)
Theorem digest_stores_what_it_answers (env : AnalyzeEnv) (m : Method)
    (w : Digest.World) :
  let run := Digest.generate_daily_insights env m w in
  match Digest.body (fst run) with
  | Digest.BodySuccess html =>
      Digest.status (fst run) = 200
      /\ Digest.daily_insights (snd run) = Digest.daily_insights w ++ [html]
      /\ Digest.trim html = html
  | _ => Digest.daily_insights (snd run) = Digest.daily_insights w
  end.
Proof.
  intros run. subst run.
  destruct (digest_outcome env m w)
    as [(E1 & E2 & _)|[(e & E1 & E2)|(ctx & content & _ & E1 & E2)]].
  - rewrite E2, E1. reflexivity.
  - rewrite E1. exact E2.
  - rewrite E1, E2. cbn. repeat split.
    apply clean_insights_trimmed.
Qed.

(** X17: the digest has no placeholder: when the content of the first
    choice is null, missing or not a string, or there is no first choice,
    the run is answered 500 after both calls were made, and nothing is
    stored. *)
Theorem digest_needs_string_content (env : AnalyzeEnv) (m : Method)
    (w : Digest.World) (bst st : Z) (bd cc : Json)
    (ctx : list (jsval * jsval)) (e : Exn) :
  m <> OPTIONS ->
  brave env = Responded bst (Some bd) -> ok bst = true ->
  Digest.searchContext bd = inr ctx ->
  openai env = Responded st (Some cc) -> ok st = true ->
  Digest.content_string cc = inl e ->
  Digest.generate_daily_insights env m w
  = ({| Digest.status := 500; Digest.body := Digest.BodyError (Digest.Thrown e) |},
     {| Digest.daily_insights := Digest.daily_insights w;
        Digest.log := Digest.log w ++ [Digest.EvSearch; Digest.EvCompletion ctx] |}).
Proof.
  intros Hm Hb Hbst Hctx Ho Hst Hc. digest_run.
  rewrite Hb. cbn. rewrite Hbst. cbn. rewrite Hctx. cbn.
  rewrite Ho. cbn. rewrite Hst. cbn. rewrite Hc. cbn.
  rewrite <- !app_assoc.
  destruct m; [now destruct Hm| |]; reflexivity.
Qed.

Lemma digest_needs_string_content_witness :
  fst (Digest.generate_daily_insights Sample.no_content POST
         {| Digest.daily_insights := []; Digest.log := [] |})
  = {| Digest.status := 500;
       Digest.body := Digest.BodyError (Digest.Thrown TypeError) |}.
Proof.
  rewrite (digest_needs_string_content Sample.no_content POST
             {| Digest.daily_insights := []; Digest.log := [] |}
             200 200 Sample.search_body (Sample.chat JNull)
             [(Some (JStr (lit "t")), Some (JStr (lit "d")))] TypeError);
    [reflexivity|discriminate|reflexivity|reflexivity|vm_compute; reflexivity
    |reflexivity|reflexivity|vm_compute; reflexivity].
Defined.

(** X18: the card after the digest.  When the run is answered with
    insights, [fetchInsights] on the table it leaves shows those insights,
    or the no-insights text when they are the empty string; when the run
    fails on an empty table the card shows that it could not load, with
    an error. *)
Theorem card_shows_the_new_insights (env : AnalyzeEnv) (m : Method)
    (w : Digest.World) :
  let run := Digest.generate_daily_insights env m w in
  (forall html, Digest.body (fst run) = Digest.BodySuccess html ->
     Digest.fetchInsights (Digest.daily_insights (snd run))
     = {| Digest.shown := Some (match html with
                                | [] => Digest.no_insights
                                | _ :: _ => html
                                end);
          Digest.error := None; Digest.loading := false |})
  /\ (Digest.daily_insights w = [] -> Digest.status (fst run) = 500 ->
      Digest.fetchInsights (Digest.daily_insights (snd run))
      = {| Digest.shown := Some Digest.could_not_load;
           Digest.error := Some StoreError; Digest.loading := false |}).
Proof.
  intros run. subst run.
  destruct (digest_outcome env m w)
    as [(E1 & E2 & _)|[(e & E1 & E2)|(ctx & content & _ & E1 & E2)]].
  - rewrite E2. split; [discriminate|discriminate].
  - rewrite E1, E2. split; [discriminate|].
    intros -> _. reflexivity.
  - rewrite E1, E2. cbn [fst snd Digest.body Digest.status Digest.daily_insights].
    split; [|discriminate].
    intros html [= <-]. unfold Digest.fetchInsights. rewrite last_snoc.
    now destruct (Digest.clean_insights content).
Qed.

Lemma card_shows_the_new_insights_witness :
  Digest.fetchInsights
    (Digest.daily_insights
       (snd (Digest.generate_daily_insights Sample.search_down POST
               {| Digest.daily_insights := []; Digest.log := [] |})))
  = {| Digest.shown := Some Digest.could_not_load;
       Digest.error := Some StoreError; Digest.loading := false |}.
Proof.
  apply (proj2 (card_shows_the_new_insights Sample.search_down POST
                  {| Digest.daily_insights := []; Digest.log := [] |}));
    reflexivity.
Defined.

(** * The event bus *)

Module BusFacts.

Import EventBus.

Lemma on_lookup (e e' : string) (cb : Callback) (ev ev' : Events) :
  on e cb ev = inr ev' ->
  default [] (ev' !! e')
  = if String.eqb e e' then default [] (ev !! e') ++ [cb] else default [] (ev !! e').
Proof.
  unfold on. destruct (inherited e); [discriminate|]. intros [= <-].
  destruct (String.eqb_spec e e') as [<-|Hne].
  - now rewrite lookup_insert_eq.
  - now rewrite lookup_insert_ne.
Qed.

Lemma off_lookup (e e' : string) (cb : Callback) (ev ev' : Events) :
  off e cb ev = inr ev' ->
  default [] (ev' !! e')
  = if String.eqb e e' then filter (fun c => c <> cb) (default [] (ev !! e'))
    else default [] (ev !! e').
Proof.
  unfold off. destruct (inherited e); [discriminate|].
  destruct (ev !! e) as [l|] eqn:El; intros [= <-].
  - destruct (String.eqb_spec e e') as [<-|Hne].
    + now rewrite lookup_insert_eq, El.
    + now rewrite lookup_insert_ne.
  - destruct (String.eqb_spec e e') as [<-|Hne]; [|reflexivity].
    now rewrite El.
Qed.

Lemma apply_op_safe (o : Op) (ev : Events) :
  inherited (op_event o) = false -> exists ev', apply_op o ev = inr ev'.
Proof.
  destruct o as [e cb|e cb]; cbn [apply_op op_event]; unfold on, off;
    intros ->; eauto.
  destruct (ev !! e); eauto.
Qed.

Lemma run_safe (ops : list Op) (ev ev' : Events) :
  run ops ev = inr ev' ->
  Forall (fun o => inherited (op_event o) = false) ops.
Proof.
  revert ev. induction ops as [|o ops IH]; intros ev; cbn [run]; [constructor|].
  destruct (apply_op o ev) as [e|ev1] eqn:E; cbn [bind_exn]; [discriminate|].
  intros H. constructor; [|now apply (IH ev1)].
  destruct o as [e0 cb|e0 cb]; cbn [apply_op op_event] in *;
    unfold on, off in E; now destruct (inherited e0).
Qed.

Lemma run_listeners (ops : list Op) (ev : Events) :
  Forall (fun o => inherited (op_event o) = false) ops ->
  exists ev', run ops ev = inr ev'
              /\ forall e, default [] (ev' !! e) = listeners e ops (default [] (ev !! e)).
Proof.
  intros H. revert ev. induction H as [|o ops Ho _ IH]; intros ev; cbn.
  - eauto.
  - destruct (apply_op_safe o ev Ho) as (ev1 & E1). rewrite E1. cbn.
    destruct (IH ev1) as (ev' & E' & Hl). exists ev'. split; [assumption|].
    intros e. rewrite Hl. destruct o as [e0 cb|e0 cb]; cbn in E1 |- *.
    + now rewrite (on_lookup e0 e cb ev ev1 E1).
    + now rewrite (off_lookup e0 e cb ev ev1 E1).
Qed.

Lemma count_filter_ne (cb c : Callback) (l : list Callback) :
  count_occ Nat.eq_dec (filter (fun x => x <> c) l) cb
  = if Nat.eqb c cb then 0%nat else count_occ Nat.eq_dec l cb.
Proof.
  induction l as [|x l IH].
  - rewrite filter_nil. cbn. now destruct (Nat.eqb c cb).
  - rewrite filter_cons. destruct (decide (x <> c)) as [Hx|Hx];
      cbn [count_occ]; rewrite IH.
    + destruct (Nat.eqb_spec c cb) as [<-|Hc]; [|reflexivity].
      destruct (Nat.eq_dec x c); [congruence|reflexivity].
    + assert (x = c) as -> by (destruct (decide (x = c)); [assumption|contradiction]).
      destruct (Nat.eqb_spec c cb) as [<-|Hc]; [reflexivity|].
      destruct (Nat.eq_dec c cb); [contradiction|reflexivity].
Qed.

Lemma count_listeners (e : string) (cb : Callback) (ops : list Op)
    (l : list Callback) :
  count_occ Nat.eq_dec (listeners e ops l) cb
  = registrations e cb ops (count_occ Nat.eq_dec l cb).
Proof.
  revert l. induction ops as [|[e0 c|e0 c] ops IH]; intros l; cbn; [reflexivity| |].
  - rewrite IH. f_equal. destruct (String.eqb e0 e); cbn; [|reflexivity].
    rewrite count_occ_app. cbn.
    destruct (Nat.eqb_spec c cb) as [<-|Hc].
    + destruct (Nat.eq_dec c c); [lia|contradiction].
    + destruct (Nat.eq_dec c cb); [contradiction|lia].
  - rewrite IH. f_equal. destruct (String.eqb e0 e); cbn; [|reflexivity].
    apply count_filter_ne.
Qed.

End BusFacts.

(** X19: with names that are not inherited from Object.prototype no
    operation of the bus throws, and after any sequence of registrations
    and removals [emit] calls, for each name, the listeners that the
    operations on that name alone leave, in the order of registration:
    the names do not interfere.  With one of the twelve inherited names
    [on], [emit] and [off] all throw a TypeError. *)
Theorem bus_names_do_not_interfere :
  (forall ops e,
      Forall (fun o => EventBus.inherited (EventBus.op_event o) = false) ops ->
      EventBus.inherited e = false ->
      exists events,
        EventBus.run ops ∅ = inr events
        /\ EventBus.emit e events = inr (EventBus.listeners e ops []))
  /\ (forall e cb events,
        EventBus.inherited e = true ->
        EventBus.on e cb events = inl TypeError
        /\ EventBus.emit e events = inl TypeError
        /\ EventBus.off e cb events = inl TypeError).
Proof.
  split.
  - intros ops e Hops He.
    destruct (BusFacts.run_listeners ops ∅ Hops) as (events & E & Hl).
    exists events. split; [assumption|].
    unfold EventBus.emit. rewrite He, Hl. now rewrite lookup_empty.
  - intros e cb events He. unfold EventBus.on, EventBus.emit, EventBus.off.
    now rewrite He.
Qed.

Lemma bus_names_do_not_interfere_witness :
  exists events,
    EventBus.run [EventBus.On "refreshIdeas" 1; EventBus.On "other" 2;
                  EventBus.Off "other" 1] ∅ = inr events
    /\ EventBus.emit "refreshIdeas" events = inr [1%nat].
Proof.
  apply (proj1 bus_names_do_not_interfere
           [EventBus.On "refreshIdeas" 1; EventBus.On "other" 2;
            EventBus.Off "other" 1] "refreshIdeas").
  - repeat constructor.
  - reflexivity.
Defined.

(** X20: after any sequence of registrations and removals, [emit] calls a
    callback as many times as it was registered for the name since it was
    last removed from it: registering twice makes two calls, and one [off]
    removes all the registrations made so far. *)
Theorem bus_calls_count_registrations (ops : list EventBus.Op) (e : string)
    (cb : EventBus.Callback) (events : EventBus.Events)
    (called : list EventBus.Callback) :
  EventBus.run ops ∅ = inr events ->
  EventBus.emit e events = inr called ->
  count_occ Nat.eq_dec called cb = EventBus.registrations e cb ops 0.
Proof.
  intros Hrun Hemit.
  destruct (BusFacts.run_listeners ops ∅ (BusFacts.run_safe ops ∅ events Hrun))
    as (events' & E & Hl).
  assert (events' = events) as -> by congruence.
  unfold EventBus.emit in Hemit.
  destruct (EventBus.inherited e); [discriminate|].
  injection Hemit as <-. rewrite Hl, lookup_empty.
  apply (BusFacts.count_listeners e cb ops []).
Qed.

Lemma bus_calls_count_registrations_witness :
  count_occ Nat.eq_dec [2%nat; 1%nat; 1%nat] 1%nat = 2%nat.
Proof.
  apply (bus_calls_count_registrations
           [EventBus.On "refreshIdeas" 1; EventBus.Off "refreshIdeas" 1;
            EventBus.On "refreshIdeas" 2; EventBus.On "refreshIdeas" 1;
            EventBus.On "refreshIdeas" 1]
           "refreshIdeas" 1%nat
           {[ "refreshIdeas" := [2%nat; 1%nat; 1%nat] ]}).
  - vm_compute; reflexivity.
  - vm_compute; reflexivity.
Defined.

(** * The title in the template *)

Module TemplateFacts.

Import Template.

Lemma find_Some (pat s before after : str) :
  find pat s = Some (before, after) -> s = before ++ pat ++ after.
Proof.
  revert before. induction s as [|c s IH]; intros before; cbn [find].
  - destruct (starts_with pat []) as [a|] eqn:E; [|discriminate].
    intros [= <- <-]. now apply starts_with_Some in E.
  - destruct (starts_with pat (c :: s)) as [a|] eqn:E.
    + intros [= <- <-]. now apply starts_with_Some in E.
    + destruct (find pat s) as [[b a]|]; [|discriminate].
      intros [= <- <-]. cbn. f_equal. now apply IH.
Qed.

Lemma find_occurs (pat b a : str) :
  exists before after,
    find pat (b ++ pat ++ a) = Some (before, after)
    /\ (length before <= length b)%nat.
Proof.
  induction b as [|c b (before & after & E & Hl)].
  - cbn [app]. exists [], a. split; [|cbn; lia].
    destruct (pat ++ a) as [|c s] eqn:Es; cbn [find];
      rewrite <- Es, starts_with_app; reflexivity.
  - cbn [app find]. destruct (starts_with pat (c :: b ++ pat ++ a)) as [a'|].
    + exists [], a'. split; [reflexivity|cbn; lia].
    + rewrite E. exists (c :: before), after. split; [reflexivity|cbn; lia].
Qed.

Lemma substitution_no_dollar (m b a t rest : str) :
  no_dollar t ->
  substitution m b a (t ++ rest) = t ++ substitution m b a rest.
Proof.
  unfold no_dollar. induction t as [|c t IH]; intros H; [reflexivity|].
  cbn [app substitution].
  destruct (Ascii.eqb_spec c dollar) as [->|Hc].
  - destruct H. now left.
  - f_equal. apply IH. intros Hin. apply H. now right.
Qed.

Lemma substitution_plain (m b a t : str) :
  no_dollar t -> substitution m b a t = t.
Proof.
  intros H. rewrite <- (app_nil_r t) at 1.
  rewrite substitution_no_dollar by assumption. cbn. apply app_nil_r.
Qed.

End TemplateFacts.

(** X21: the title is put in place of the first placeholder of the
    template and nowhere else; a template without the placeholder is
    returned as it is.  A title without a dollar sign is put there as it
    is written.  A dollar sign is read as in a replacement pattern: in a
    title, [$&] puts the placeholder back and [$$] comes out as one
    dollar sign. *)
Theorem title_replaces_first_placeholder (analysisBlueprint title : str) :
  (Template.find Template.placeholder analysisBlueprint = None ->
   Template.finalBlueprint analysisBlueprint title = analysisBlueprint)
  /\ (forall b a, analysisBlueprint = b ++ Template.placeholder ++ a ->
        exists before after,
          Template.find Template.placeholder analysisBlueprint = Some (before, after)
          /\ (length before <= length b)%nat)
  /\ (forall before after,
        Template.find Template.placeholder analysisBlueprint = Some (before, after) ->
        analysisBlueprint = before ++ Template.placeholder ++ after
        /\ (Template.no_dollar title ->
            Template.finalBlueprint analysisBlueprint title
            = before ++ title ++ after)
        /\ (forall t t', Template.no_dollar t -> Template.no_dollar t' ->
              title = t ++ lit "$&" ++ t' ->
              Template.finalBlueprint analysisBlueprint title
              = before ++ (t ++ Template.placeholder ++ t') ++ after)
        /\ (forall t t', Template.no_dollar t -> Template.no_dollar t' ->
              title = t ++ lit "$$" ++ t' ->
              Template.finalBlueprint analysisBlueprint title
              = before ++ (t ++ lit "$" ++ t') ++ after)).
Proof.
  unfold Template.finalBlueprint, Template.replace.
  split; [|split].
  - now intros ->.
  - intros b a ->. apply TemplateFacts.find_occurs.
  - intros before after E. rewrite E.
    split; [now apply TemplateFacts.find_Some|]. split; [|split].
    + intros H. now rewrite TemplateFacts.substitution_plain.
    + intros t t' Ht Ht' ->.
      rewrite TemplateFacts.substitution_no_dollar by assumption.
      cbn [app lit list_ascii_of_string Template.substitution].
      change (Ascii.eqb "$" Template.dollar) with true.
      change (Ascii.eqb "&" Template.dollar) with false.
      change (Ascii.eqb "&" (ascii_of_nat 38)) with true. cbn match.
      now rewrite TemplateFacts.substitution_plain.
    + intros t t' Ht Ht' ->.
      rewrite TemplateFacts.substitution_no_dollar by assumption.
      cbn [app lit list_ascii_of_string Template.substitution].
      change (Ascii.eqb "$" Template.dollar) with true. cbn match.
      now rewrite TemplateFacts.substitution_plain.
Qed.

Lemma title_replaces_first_placeholder_witness :
  Template.finalBlueprint (lit "<h2>{{IDEA_TITLE}}</h2>") (lit "Save $$ on ads")
  = lit "<h2>Save $ on ads</h2>".
Proof.
  apply (proj2 (proj2 (proj2 (proj2 (proj2
           (title_replaces_first_placeholder (lit "<h2>{{IDEA_TITLE}}</h2>")
              (lit "Save $$ on ads")))
           (lit "<h2>") (lit "</h2>") eq_refl)))
         (lit "Save ") (lit " on ads")).
  - intros [H|[H|[H|[H|[H|[]]]]]]; discriminate H.
  - intros [H|[H|[H|[H|[H|[H|[H|[]]]]]]]]; discriminate H.
  - reflexivity.
Defined.

(** * Row changes in the table of the dashboard *)

Module TableFacts.

Import IdeasTable.

Lemma str_eqb_eq (a b : str) : str_eqb a b = true -> a = b.
Proof.
  revert b. induction a as [|x a IH]; intros [|y b]; cbn; try discriminate.
  - reflexivity.
  - intros [Hx Hab]%andb_prop. apply Ascii.eqb_eq in Hx. f_equal; auto.
Qed.

Lemma strict_equal_eq (a b : jsval) : strict_equal a b = true -> a = b.
Proof.
  destruct a as [[]|], b as [[]|]; cbn; try discriminate; try reflexivity.
  - intros H. apply Bool.eqb_prop in H. now subst.
  - intros H%Z.eqb_eq. now subst.
  - intros H%str_eqb_eq. now subst.
Qed.

Lemma own_property_app (name : str) (a b : Row) :
  own_property name (a ++ b)
  = match own_property name b with
    | Some v => Some v
    | None => own_property name a
    end.
Proof.
  induction a as [|[k v] a IH]; cbn [app own_property].
  - now destruct (own_property name b).
  - rewrite IH. destruct (own_property name b); [reflexivity|].
    reflexivity.
Qed.

End TableFacts.

(** X22: a row change seen by the dashboard never adds or removes a row
    and never changes an identifier: a change for an identifier that is
    not held (a new idea of a teammate), a payload without id (a deletion)
    or without a new row leaves the rows as they are.  In the row with the
    identifier of the payload every field of the payload takes its new
    value and every other field (such as the e-mail of the view) is
    kept. *)
Theorem row_change_updates_in_place (payload_new : option IdeasTable.Row)
    (currentIdeas : list IdeasTable.Row) :
  map (own_property (lit "id")) (IdeasTable.on_change payload_new currentIdeas)
  = map (own_property (lit "id")) currentIdeas
  /\ (payload_new = None
      \/ (exists newIdea, payload_new = Some newIdea
            /\ (own_property (lit "id") newIdea = None
                \/ Forall (fun idea =>
                     IdeasTable.strict_equal (own_property (lit "id") idea)
                       (own_property (lit "id") newIdea) = false) currentIdeas)) ->
      IdeasTable.on_change payload_new currentIdeas = currentIdeas)
  /\ (forall newIdea i idea,
        payload_new = Some newIdea ->
        own_property (lit "id") newIdea <> None ->
        currentIdeas !! i = Some idea ->
        exists idea',
          IdeasTable.on_change payload_new currentIdeas !! i = Some idea'
          /\ if IdeasTable.strict_equal (own_property (lit "id") idea)
                  (own_property (lit "id") newIdea)
             then forall name,
                    own_property name idea'
                    = match own_property name newIdea with
                      | Some v => Some v
                      | None => own_property name idea
                      end
             else idea' = idea).
Proof.
  split; [|split].
  - unfold IdeasTable.on_change. destruct payload_new as [newIdea|]; [|reflexivity].
    destruct (own_property (lit "id") newIdea) as [v|] eqn:Ev; [|reflexivity].
    rewrite map_map. apply map_ext. intros idea.
    destruct (IdeasTable.strict_equal (own_property (lit "id") idea) (Some v)) eqn:E;
      [|reflexivity].
    apply TableFacts.strict_equal_eq in E.
    unfold IdeasTable.spread. now rewrite TableFacts.own_property_app, Ev, E.
  - unfold IdeasTable.on_change.
    intros [->|(newIdea & -> & [-> |H])]; [reflexivity|reflexivity|].
    destruct (own_property (lit "id") newIdea) as [v|]; [|reflexivity].
    induction H as [|idea l Hi _ IH]; [reflexivity|].
    cbn [map]. now rewrite Hi, IH.
  - intros newIdea i idea -> Hid Hi. unfold IdeasTable.on_change.
    destruct (own_property (lit "id") newIdea) as [v|] eqn:Ev; [|now destruct Hid].
    rewrite list_lookup_fmap, Hi. cbn [fmap option_fmap option_map].
    eexists. split; [reflexivity|].
    destruct (IdeasTable.strict_equal (own_property (lit "id") idea) (Some v));
      [|reflexivity].
    intros name. apply TableFacts.own_property_app.
Qed.

Lemma row_change_updates_in_place_witness :
  IdeasTable.on_change
    (Some [(lit "id", JNum 7); (lit "analysis_status", JStr (lit "completed"))])
    [[(lit "id", JNum 1); (lit "user_email", JStr (lit "a@b.c"))]]
  = [[(lit "id", JNum 1); (lit "user_email", JStr (lit "a@b.c"))]].
Proof.
  apply (proj1 (proj2 (row_change_updates_in_place _ _))).
  right. eexists. split; [reflexivity|]. right. repeat constructor.
Defined.
